(** * Exercita365 API: the express routes, the auth middleware and the
      Location model, embedded as functions over an explicit store.

    Sources embedded here:
    - [src/middleware/auth.js]           the auth middleware ([auth]);
    - [src/index.js]                     the routes without input validation
                                         (module [IndexJs]);
    - [src/unnamed/part_000]             the routes with express-validator
                                         chains (module [Part000]);
    - [src/unnamed/part_002]             the Location model ([Location]).

    The libraries the routes call (validator.js through express-validator,
    bcrypt, jsonwebtoken, axios) are interfaces: type classes whose methods
    the routes use and whose documented contracts are hypotheses of the
    theorems that need them. The database is a pair of tables, each a list
    of rows with a serial primary key; a list stands for the rows whatever
    the order a query returns them in. The createdAt and updatedAt columns
    kept by the ORM are not part of the rows. A string holds the bytes of
    the UTF-8 encoding of a text. *)

From Stdlib Require Import Ascii.
From stdpp Require Import base strings gmap list option pretty.

Local Open Scope Z_scope.

(** ** JavaScript values carried by a JSON body and by a row

    [JNum n] is a JSON number that is an integer. The conversions of a
    number to text below print every digit, which is what JavaScript does
    for the integers that [JSON.parse] reads exactly (the safe integers,
    see [representable]). *)

Inductive jsval :=
| JUndefined
| JNull
| JStr (s : string)
| JNum (n : Z).

Global Instance jsval_eq_dec : EqDecision jsval.
Proof. solve_decision. Defined.

(** [req.body]: a parsed JSON object. Reading a missing property gives
    [undefined]. *)
Abbreviation object := (gmap string jsval).

Definition prop (b : object) (k : string) : jsval := default JUndefined (b !! k).

(** [value == null] in JavaScript: null or undefined. *)
Definition nullish (v : jsval) : bool :=
  match v with
  | JUndefined | JNull => true
  | _ => false
  end.

(** [String(v)], as a template literal converts a value. *)
Definition js_String (v : jsval) : string :=
  match v with
  | JUndefined => "undefined"
  | JNull => "null"
  | JStr s => s
  | JNum n => pretty n
  end.

(** [s.replace(pat, rep)] with a string pattern: the first occurrence of
    [pat] in [s] is replaced, the rest of [s] is kept. *)
Fixpoint replace (pat rep s : string) : string :=
  if String.prefix pat s
  then rep +:+ String.substring (String.length pat)
                 (String.length s - String.length pat) s
  else match s with
       | EmptyString => EmptyString
       | String c s' => String c (replace pat rep s')
       end.

(** A value that a JSON body can hold and that the model reads as
    JavaScript does: not [undefined], and a number only when it is a safe
    integer, that is, at most 2^53 - 1 in absolute value. *)
Definition representable (v : jsval) : bool :=
  match v with
  | JUndefined => false
  | JNull | JStr _ => true
  | JNum n => bool_decide (-9007199254740991 ≤ n ≤ 9007199254740991)
  end.

(** A parsed JSON object all of whose values are [representable]. *)
Definition json (b : object) : Prop := map_Forall (λ _ v, representable v = true) b.

(** ** Characters

    The characters of a text are the code points that its bytes encode:
    every byte except the continuation bytes (10xxxxxx) starts one. *)

Definition continuation (c : ascii) : bool :=
  match c with
  | Ascii _ _ _ _ _ _ b6 b7 => b7 && negb b6
  end.

Fixpoint code_points (s : string) : nat :=
  match s with
  | EmptyString => 0
  | String c s' => ((if continuation c then 0 else 1) + code_points s')%nat
  end.

(** The variation selectors U+FE0E and U+FE0F, in UTF-8. *)
Definition VS15 : string :=
  String "239"%char (String "184"%char (String "142"%char EmptyString)).

Definition VS16 : string :=
  String "239"%char (String "184"%char (String "143"%char EmptyString)).

Fixpoint selectors (s : string) : nat :=
  match s with
  | EmptyString => 0
  | String _ s' =>
    ((if String.prefix VS15 s || String.prefix VS16 s then 1 else 0) + selectors s')%nat
  end.

(** The first [n] characters of a text and what follows them. *)
Fixpoint split_at (n : nat) (s : string) : string * string :=
  match s with
  | EmptyString => (EmptyString, EmptyString)
  | String c s' =>
    if continuation c
    then let '(kept, excess) := split_at n s' in (String c kept, excess)
    else match n with
         | O => (EmptyString, s)
         | S m => let '(kept, excess) := split_at m s' in (String c kept, excess)
         end
  end.

Fixpoint spaces (s : string) : bool :=
  match s with
  | EmptyString => true
  | String c s' => bool_decide (c = " "%char) && spaces s'
  end.

Fixpoint has_NUL (s : string) : bool :=
  match s with
  | EmptyString => false
  | String c s' => bool_decide (c = "000"%char) || has_NUL s'
  end.

(** ** Token payload, rows and the store *)

Module Claims.
(** The decoded payload of a token: [{ id, iat }] and, when the token was
    signed with [expiresIn], [exp]. Instants are in seconds. *)
Record t := { id : Z; iat : Z; exp : option Z }.
End Claims.

Module User.
Record t := {
  id : Z;
  name : jsval;
  gender : jsval;
  cpf : jsval;
  address : jsval;
  email : jsval;
  password : string;
  birthdate : jsval
}.
End User.

Module Location.
(** [Location.init] of part_002: name, description, address (allowNull
    false), coordinates (allowNull true); [belongsTo(User)] adds the
    attribute userId; the ORM adds the serial primary key id. *)
Record t := {
  id : Z;
  name : jsval;
  description : jsval;
  address : jsval;
  coordinates : jsval;
  userId : jsval
}.

(** [location[k]] for the attributes of the model. *)
Definition get (k : string) (l : t) : jsval :=
  if decide (k = "id") then JNum (id l)
  else if decide (k = "name") then name l
  else if decide (k = "description") then description l
  else if decide (k = "address") then address l
  else if decide (k = "coordinates") then coordinates l
  else if decide (k = "userId") then userId l
  else JUndefined.

(** [location[k] = v] on an instance read from the table. The setter of an
    attribute records the value; the ORM ignores a write to a primary key
    that is already defined; any other key is a plain property of the
    instance object, which is neither stored nor serialised (a key that
    names a method or an internal slot of the instance is outside this
    model). *)
Definition set (k : string) (v : jsval) (l : t) : t :=
  if decide (k = "name") then
    {| id := id l; name := v; description := description l;
       address := address l; coordinates := coordinates l; userId := userId l |}
  else if decide (k = "description") then
    {| id := id l; name := name l; description := v;
       address := address l; coordinates := coordinates l; userId := userId l |}
  else if decide (k = "address") then
    {| id := id l; name := name l; description := description l;
       address := v; coordinates := coordinates l; userId := userId l |}
  else if decide (k = "coordinates") then
    {| id := id l; name := name l; description := description l;
       address := address l; coordinates := v; userId := userId l |}
  else if decide (k = "userId") then
    {| id := id l; name := name l; description := description l;
       address := address l; coordinates := coordinates l; userId := v |}
  else l.

(** The attributes declared with [allowNull: false]. *)
Definition required : list string := ["name"; "description"; "address"].
End Location.

Record Store := {
  Users : list User.t;
  Locations : list Location.t;
  Users_id_seq : Z;
  Locations_id_seq : Z
}.

(** ** Responses *)

(** One entry of [errors.array()]: the field and the message. *)
Record ValidationError := { path : string; msg : string }.

Inductive Json :=
| Obj_error (key message : string)       (* { error: m } or { erro: m } *)
| Obj_errors (errors : list ValidationError)
| Obj_user_token (user : User.t) (token : string)
| Obj_location (location : Location.t)
| Arr_locations (locations : list Location.t)
| Obj_message (key message : string)     (* { message: m } or { mensagem: m } *)
| Obj_link (googleMapsLink : string)
| Express_error.                         (* the framework's own error page *)

Record Response := { status : Z; sent : Json }.

Definition send (code : Z) (j : Json) : Response := {| status := code; sent := j |}.

(** ** The libraries the routes call *)

(** validator.js, reached through the chains of express-validator. *)
Class Validator := {
  isEmail : string → bool;
  isISO8601 : string → bool;
  toDate : string → jsval;
  normalizeEmail : string → string;
  trim : string → string;
  escape : string → string
}.

(** bcrypt: [hash(data, rounds)] and [compare(data, encrypted)]. The salt
    that [hash] draws is internal to the library. *)
Class Bcrypt := {
  bcrypt_hash : string → Z → string;
  bcrypt_compare : string → string → bool
}.

(** jsonwebtoken under the process secret: [sign({ id }, secret, options)]
    at an instant, with [options.expiresIn] when given, and
    [verify(token, secret)] at an instant, which returns the decoded
    payload or throws. *)
Class Jsonwebtoken := {
  jwt_sign : Z → option string → Z → string;
  jwt_verify : string → Z → option Claims.t
}.

(** [encodeURIComponent] and [axios.get(url)] against the geocoder: the
    [lat] and [lon] of each entry of [response.data], or a thrown error. *)
Class Axios := {
  encodeURIComponent : string → string;
  axios_get : string → option (list (string * string))
}.

(** A [try { ... } catch { ... }] block whose body is an [option]: [None] is
    a thrown exception. *)
Definition try_catch {A} (block : option A) (handler : A) : A :=
  default handler block.

(** [bcrypt.hash(password, 8)]: throws unless the data is a string. *)
Definition hash `{Bcrypt} (password : jsval) (rounds : Z) : option string :=
  match password with
  | JStr s => Some (bcrypt_hash s rounds)
  | _ => None
  end.

(** [bcrypt.compare(password, user.password)]: throws unless the data is a
    string. *)
Definition compare `{Bcrypt} (password : jsval) (encrypted : string) : option bool :=
  match password with
  | JStr s => Some (bcrypt_compare s encrypted)
  | _ => None
  end.

(** ** src/middleware/auth.js *)

(** The path parameter is the integer that the path spells. The primary
    keys are 32-bit integers ([int32] below): a path parameter outside that
    range names no row, and the database refuses the query that carries it
    (the routes then answer 500), which the queries below do not show. *)
Record Request := {
  Authorization : option string;   (* req.header('Authorization') *)
  params : Z;                      (* req.params.local_id, req.params.id *)
  body : object                    (* req.body *)
}.

(** The range of an INTEGER column, and so of the serial primary keys. *)
Definition int32 (n : Z) : Prop := -2147483648 ≤ n ≤ 2147483647.

(** What a middleware does with a request: it calls [next()] with [req.user]
    set, it sends a response itself, or it throws. *)
Inductive Gate :=
| Next (user : Claims.t)
| Sent (r : Response)
| Thrown (e : string).

Definition auth `{Jsonwebtoken} (now : Z) (req : Request) : Gate :=
  match Authorization req with
  | None => Thrown "TypeError: Cannot read properties of undefined (reading 'replace')"
  | Some header =>
    let token := replace "Bearer " EmptyString header in
    if decide (token = EmptyString)
    then Sent (send 401 (Obj_error "erro" "Acesso negado. Nenhum token fornecido."))
    else match jwt_verify token now with
         | Some decoded => Next decoded
         | None => Sent (send 400 (Obj_error "erro" "Token inválido."))
         end
  end.

(** A route registered behind [auth]: the handler runs only after [next()].
    An error thrown by a middleware reaches the framework, which answers 500
    with its own page. *)
Definition behind_auth `{Jsonwebtoken}
    (handler : Store → Claims.t → Request → Store * Response)
    (st : Store) (now : Z) (req : Request) : Store * Response :=
  match auth now req with
  | Next user => handler st user req
  | Sent r => (st, r)
  | Thrown _ => (st, send 500 Express_error)
  end.

(** ** The models: the queries the routes issue

    A where clause compares a column with the value given: the query builder
    throws on [undefined], and the database refuses to compare a text column
    with a number. A value written to a [DataTypes.STRING] column is stored
    as the column holds it ([STRING] below). The queries by identifier
    answer for the identifiers within [int32]; the conversion of a value
    written to the integer column userId is not modelled (it is stored as it
    is sent), nor is a foreign key from userId to the users. *)

(** A text written to a VARCHAR(255) column: the database refuses a NUL
    character; it keeps a text of at most 255 characters as it is, cuts the
    spaces beyond the 255th character, and refuses the text when anything
    else lies beyond it. *)
Definition VARCHAR255 (s : string) : option string :=
  if has_NUL s then None
  else let '(kept, excess) := split_at 255 s in
       if spaces excess then Some kept else None.

(** A value written to a [DataTypes.STRING] column, as the column then
    holds it: a number is sent as its text, a missing value is stored as
    null. *)
Definition STRING (v : jsval) : option jsval :=
  match v with
  | JUndefined | JNull => Some JNull
  | JStr s => JStr <$> VARCHAR255 s
  | JNum n => JStr <$> VARCHAR255 (pretty n)
  end.

(** A value compared with a text column in a where clause. *)
Definition where_text (v : jsval) : option jsval :=
  match v with
  | JUndefined | JNum _ => None
  | JNull | JStr _ => Some v
  end.

Definition with_Users (st : Store) (rows : list User.t) (seq : Z) : Store :=
  {| Users := rows; Locations := Locations st;
     Users_id_seq := seq; Locations_id_seq := Locations_id_seq st |}.

Definition with_Locations (st : Store) (rows : list Location.t) (seq : Z) : Store :=
  {| Users := Users st; Locations := rows;
     Users_id_seq := Users_id_seq st; Locations_id_seq := seq |}.

(** [User.findOne({ where: { [Op.or]: [{ cpf }, { email }] } })] *)
Definition User_findOne_cpf_or_email (st : Store) (cpf email : jsval)
    : option (option User.t) :=
  cpf ← where_text cpf;
  email ← where_text email;
  Some (head (filter (λ u, User.cpf u = cpf ∨ User.email u = email) (Users st))).

(** [User.findOne({ where: { email } })] *)
Definition User_findOne_email (st : Store) (email : jsval) : option (option User.t) :=
  email ← where_text email;
  Some (head (filter (λ u, User.email u = email) (Users st))).

(** [User.findByPk(id)] *)
Definition User_findByPk (st : Store) (id : Z) : option User.t :=
  head (filter (λ u, User.id u = id) (Users st)).

(** Modelled from the spec: [models/user.js] is not among the sources. The
    attributes are those of the User of §3 and [create] persists the row
    under the next value of the serial key (§4.3, persist the user); no
    check of the model itself is assumed. *)
Definition User_create (st : Store)
    (name gender cpf address email : jsval) (password : string) (birthdate : jsval)
    : option (Store * User.t) :=
  let user :=
    {| User.id := Users_id_seq st; User.name := name; User.gender := gender;
       User.cpf := cpf; User.address := address; User.email := email;
       User.password := password; User.birthdate := birthdate |} in
  Some (with_Users st (Users st ++ [user]) (Users_id_seq st + 1), user).

(** [user.destroy()] *)
Definition User_destroy (st : Store) (user : User.t) : Store :=
  with_Users st (filter (λ u, User.id u ≠ User.id user) (Users st)) (Users_id_seq st).

(** [Location.findOne({ where: { id: local_id, userId: req.user.id } })] *)
Definition Location_findOne (st : Store) (id userId : Z) : option Location.t :=
  head (filter (λ l, Location.id l = id ∧ Location.userId l = JNum userId)
          (Locations st)).

(** [Location.findAll({ where: { userId } })]: the query asks for no
    order, so the list stands for the rows it holds, in whatever order. *)
Definition Location_findAll (st : Store) (userId : Z) : list Location.t :=
  filter (λ l, Location.userId l = JNum userId) (Locations st).

(** [Location.create({ name, description, address, coordinates, userId })]:
    the validation of the model rejects a null or missing value of an
    [allowNull: false] attribute; the row is inserted with each text as its
    column holds it, and the instance returned carries the row as the
    database returned it. *)
Definition Location_create (st : Store)
    (name description address coordinates : jsval) (userId : Z)
    : option (Store * Location.t) :=
  if nullish name || nullish description || nullish address then None
  else
    name ← STRING name;
    description ← STRING description;
    address ← STRING address;
    coordinates ← STRING coordinates;
    let location :=
      {| Location.id := Locations_id_seq st; Location.name := name;
         Location.description := description; Location.address := address;
         Location.coordinates := coordinates;
         Location.userId := JNum userId |} in
    Some (with_Locations st (Locations st ++ [location]) (Locations_id_seq st + 1),
          location).

(** The value of a text column after an update: the one it had when the
    attribute was not changed, the one the column makes of the new value
    when it was. *)
Definition updated (stored sent : jsval) : option jsval :=
  if decide (sent = stored) then Some stored else STRING sent.

(** The row that the UPDATE of [save()] leaves for an instance read as
    [old] and assigned to [new]. *)
Definition Location_update (old new : Location.t) : option Location.t :=
  name ← updated (Location.name old) (Location.name new);
  description ← updated (Location.description old) (Location.description new);
  address ← updated (Location.address old) (Location.address new);
  coordinates ← updated (Location.coordinates old) (Location.coordinates new);
  Some {| Location.id := Location.id new; Location.name := name;
          Location.description := description; Location.address := address;
          Location.coordinates := coordinates;
          Location.userId := Location.userId new |}.

(** [location.save()] on an instance read as [old] and assigned to [new]:
    the changed attributes are validated, then the row of that primary key
    is updated (its place in the list means nothing). The instance keeps
    the values assigned to it. *)
Definition Location_save (st : Store) (old new : Location.t) : option Store :=
  if decide (Forall (λ k, Location.get k new ≠ Location.get k old →
                          nullish (Location.get k new) = false) Location.required)
  then
    row ← Location_update old new;
    Some (with_Locations st
            ((λ r, if decide (Location.id r = Location.id row) then row else r)
               <$> Locations st)
            (Locations_id_seq st))
  else None.

(** [location.destroy()] *)
Definition Location_destroy (st : Store) (location : Location.t) : Store :=
  with_Locations st
    (filter (λ l, Location.id l ≠ Location.id location) (Locations st))
    (Locations_id_seq st).

(** ** src/index.js: the routes without input validation *)

Module IndexJs.
Section routes.
Context `{Bcrypt, Jsonwebtoken, Axios}.

Definition post_usuario (st : Store) (now : Z) (req : Request) : Store * Response :=
  let name := prop (body req) "name" in
  let gender := prop (body req) "gender" in
  let cpf := prop (body req) "cpf" in
  let address := prop (body req) "address" in
  let email := prop (body req) "email" in
  let password := prop (body req) "password" in
  let birthdate := prop (body req) "birthdate" in
  try_catch
    (existingUser ← User_findOne_cpf_or_email st cpf email;
     match existingUser with
     | Some _ =>
       Some (st, send 400 (Obj_error "error"
                             "Usuário com o mesmo CPF ou email já cadastrado."))
     | None =>
       hashedPassword ← hash password 8;
       '(st', user) ← User_create st name gender cpf address email
                        hashedPassword birthdate;
       let token := jwt_sign (User.id user) None now in
       Some (st', send 201 (Obj_user_token user token))
     end)
    (st, send 500 (Obj_error "error" "Erro ao criar usuário.")).

Definition post_login (st : Store) (now : Z) (req : Request) : Store * Response :=
  let email := prop (body req) "email" in
  let password := prop (body req) "password" in
  try_catch
    (found ← User_findOne_email st email;
     match found with
     | None => Some (st, send 400 (Obj_error "error" "Usuário não encontrado."))
     | Some user =>
       isMatch ← compare password (User.password user);
       if isMatch : bool
       then
         let token := jwt_sign (User.id user) None now in
         Some (st, send 200 (Obj_user_token user token))
       else Some (st, send 400 (Obj_error "error" "Senha incorreta."))
     end)
    (st, send 500 (Obj_error "error" "Erro ao realizar login.")).

Definition post_local (st : Store) (user : Claims.t) (req : Request)
    : Store * Response :=
  let name := prop (body req) "name" in
  let description := prop (body req) "description" in
  let address := prop (body req) "address" in
  let coordinates := prop (body req) "coordinates" in
  try_catch
    ('(st', location) ← Location_create st name description address coordinates
                          (Claims.id user);
     Some (st', send 201 (Obj_location location)))
    (st, send 500 (Obj_error "error" "Erro ao criar local.")).

Definition get_local (st : Store) (user : Claims.t) (req : Request)
    : Store * Response :=
  (st, send 200 (Arr_locations (Location_findAll st (Claims.id user)))).

Definition get_local_id (st : Store) (user : Claims.t) (req : Request)
    : Store * Response :=
  let local_id := params req in
  match Location_findOne st local_id (Claims.id user) with
  | None => (st, send 404 (Obj_error "error" "Local não encontrado."))
  | Some location => (st, send 200 (Obj_location location))
  end.

Definition put_local_id (st : Store) (user : Claims.t) (req : Request)
    : Store * Response :=
  let local_id := params req in
  let updates := body req in
  try_catch
    (match Location_findOne st local_id (Claims.id user) with
     | None => Some (st, send 404 (Obj_error "error" "Local não encontrado."))
     | Some location =>
       (* Object.keys(updates).forEach(update => location[update] = updates[update]) *)
       let location' := map_fold Location.set location updates in
       st' ← Location_save st location location';
       Some (st', send 200 (Obj_location location'))
     end)
    (st, send 500 (Obj_error "error" "Erro ao atualizar local.")).

Definition delete_local_id (st : Store) (user : Claims.t) (req : Request)
    : Store * Response :=
  let local_id := params req in
  match Location_findOne st local_id (Claims.id user) with
  | None => (st, send 404 (Obj_error "error" "Local não encontrado."))
  | Some location =>
    (Location_destroy st location,
     send 200 (Obj_message "message" "Local deletado com sucesso."))
  end.

Definition get_local_id_maps (st : Store) (user : Claims.t) (req : Request)
    : Store * Response :=
  let local_id := params req in
  try_catch
    (match Location_findOne st local_id (Claims.id user) with
     | None => Some (st, send 404 (Obj_error "error" "Local não encontrado."))
     | Some location =>
       let url := "https://nominatim.openstreetmap.org/search?q="
                  +:+ encodeURIComponent (js_String (Location.address location))
                  +:+ "&format=json&limit=1" in
       data ← axios_get url;
       match data with
       | [] => Some (st, send 404 (Obj_error "error"
                                     "Endereço não encontrado no OpenStreetMap."))
       | (lat, lon) :: _ =>
         let googleMapsLink :=
           "https://www.google.com/maps/search/?api=1&query="
           +:+ lat +:+ "," +:+ lon in
         Some (st, send 200 (Obj_link googleMapsLink))
       end
     end)
    (st, send 500 (Obj_error "error" "Erro ao gerar link do Google Maps.")).

Definition delete_usuario_id (st : Store) (user : Claims.t) (req : Request)
    : Store * Response :=
  let id := params req in
  match User_findByPk st id with
  | None => (st, send 404 (Obj_error "error" "Usuário não encontrado."))
  | Some target =>
    let locations := Location_findAll st id in
    if decide (0 < length locations)%nat
    then (st, send 400 (Obj_error "error"
            "Usuário não pode ser deletado, pois possui locais associados."))
    else (User_destroy st target,
          send 200 (Obj_message "message" "Usuário deletado com sucesso."))
  end.

End routes.
End IndexJs.

(** ** express-validator: what the chains of part_000 compute

    A standard validator or sanitizer receives the value converted to a
    string; [isString] looks at the value itself. A failed validator adds
    one entry to the errors of the request; a sanitizer stores its result
    back into [req.body]. Only fields of the body are modelled. *)

Definition toString (v : jsval) : string :=
  match v with
  | JUndefined | JNull => EmptyString
  | JStr s => s
  | JNum n => pretty n
  end.

Definition isEmpty (s : string) : bool := bool_decide (String.length s = 0%nat).

Definition isIn (values : list string) (s : string) : bool := bool_decide (s ∈ values).

(** The length that [isLength] measures: the characters of the string,
    the variation selectors U+FE0E and U+FE0F not counted. *)
Definition characters (s : string) : nat := (code_points s - selectors s)%nat.

Definition isLength (min : nat) (max : option nat) (s : string) : bool :=
  bool_decide (min ≤ characters s)%nat
  && match max with
     | None => true
     | Some m => bool_decide (characters s ≤ m)%nat
     end.

Definition isString (v : jsval) : bool :=
  match v with
  | JStr _ => true
  | _ => false
  end.

(** The entry a validator leaves when it fails. *)
Definition check (ok : bool) (field message : string) : list ValidationError :=
  if ok then [] else [{| path := field; msg := message |}].

(** [.trim().escape()] on a field of the body *)
Definition trim_escape `{Validator} (field : string) (b : object) : object :=
  <[field := JStr (escape (trim (toString (prop b field))))]> b.

(** [.optional()] in front of a chain: the chain is skipped when the field
    is undefined. *)
Definition optional (chain : string → object → object) (field : string) (b : object)
    : object :=
  if decide (prop b field = JUndefined) then b else chain field b.

(** ** src/unnamed/part_000: the routes with validation chains *)

Module Part000.
Section routes.
Context `{Validator, Bcrypt, Jsonwebtoken, Axios}.

(** The seven chains of [app.post('/usuario', [...])], in their order. *)
Definition usuario_errors (b : object) : list ValidationError :=
  check (negb (isEmpty (toString (prop b "name")))) "name" "Name is required."
  ++ check (isIn ["M"; "F"] (toString (prop b "gender")))
       "gender" "Gender must be either M or F."
  ++ check (isLength 11 (Some 11%nat) (toString (prop b "cpf")))
       "cpf" "CPF must be 11 characters long."
  ++ check (negb (isEmpty (toString (prop b "address")))) "address" "Address is required."
  ++ check (isEmail (toString (prop b "email"))) "email" "Email is invalid."
  ++ check (isLength 6 None (toString (prop b "password")))
       "password" "Password must be at least 6 characters long."
  ++ check (isISO8601 (toString (prop b "birthdate"))) "birthdate" "Birthdate is invalid.".

(** [.toDate()] on birthdate *)
Definition usuario_sanitized (b : object) : object :=
  <["birthdate" := toDate (toString (prop b "birthdate"))]> b.

Definition post_usuario (st : Store) (now : Z) (req : Request) : Store * Response :=
  let errors := usuario_errors (body req) in
  let body := usuario_sanitized (body req) in
  if decide (errors ≠ []) then (st, send 400 (Obj_errors errors))
  else
    let name := prop body "name" in
    let gender := prop body "gender" in
    let cpf := prop body "cpf" in
    let address := prop body "address" in
    let email := prop body "email" in
    let password := prop body "password" in
    let birthdate := prop body "birthdate" in
    try_catch
      (existingUser ← User_findOne_cpf_or_email st cpf email;
       match existingUser with
       | Some _ =>
         Some (st, send 400 (Obj_error "erro"
                               "Usuário com o mesmo CPF ou email já cadastrado."))
       | None =>
         hashedPassword ← hash password 8;
         '(st', user) ← User_create st name gender cpf address email
                          hashedPassword birthdate;
         let token := jwt_sign (User.id user) None now in
         Some (st', send 201 (Obj_user_token user token))
       end)
      (st, send 500 (Obj_error "erro" "Erro ao criar usuário.")).

(** The two chains of [app.post('/login', [...])]. *)
Definition login_errors (b : object) : list ValidationError :=
  check (isEmail (toString (prop b "email"))) "email" "Invalid value"
  ++ check (isLength 8 None (toString (prop b "password"))) "password" "Invalid value".

(** [.normalizeEmail()] on email *)
Definition login_sanitized (b : object) : object :=
  <["email" := JStr (normalizeEmail (toString (prop b "email")))]> b.

Definition post_login (st : Store) (now : Z) (req : Request) : Store * Response :=
  let errors := login_errors (body req) in
  let body := login_sanitized (body req) in
  if decide (errors ≠ []) then (st, send 400 (Obj_errors errors))
  else
    let email := prop body "email" in
    let password := prop body "password" in
    try_catch
      (found ← User_findOne_email st email;
       match found with
       | None => Some (st, send 400 (Obj_error "erro" "Usuário não encontrado."))
       | Some user =>
         isMatch ← compare password (User.password user);
         if isMatch : bool
         then
           let token := jwt_sign (User.id user) (Some "1h") now in
           Some (st, send 200 (Obj_user_token user token))
         else Some (st, send 400 (Obj_error "erro" "Senha incorreta."))
       end)
      (st, send 500 (Obj_error "erro" "Erro ao realizar login.")).

(** The three chains of [app.post('/local', [auth, ...])]. *)
Definition local_errors (b : object) : list ValidationError :=
  check (isString (prop b "name")) "name" "Invalid value"
  ++ check (isLength 1 None (toString (prop b "name"))) "name" "Invalid value"
  ++ check (isString (prop b "description")) "description" "Invalid value"
  ++ check (isLength 1 None (toString (prop b "description")))
       "description" "Invalid value"
  ++ check (isString (prop b "address")) "address" "Invalid value".

Definition local_sanitized (b : object) : object :=
  trim_escape "address" (trim_escape "description" (trim_escape "name" b)).

Definition post_local (st : Store) (user : Claims.t) (req : Request)
    : Store * Response :=
  let errors := local_errors (body req) in
  let body := local_sanitized (body req) in
  if decide (errors ≠ []) then (st, send 400 (Obj_errors errors))
  else
    let name := prop body "name" in
    let description := prop body "description" in
    let address := prop body "address" in
    try_catch
      ('(st', location) ← Location_create st name description address JUndefined
                            (Claims.id user);
       Some (st', send 201 (Obj_location location)))
      (st, send 500 (Obj_error "erro" "Erro ao criar local.")).

Definition get_local (st : Store) (user : Claims.t) (req : Request)
    : Store * Response :=
  (st, send 200 (Arr_locations (Location_findAll st (Claims.id user)))).

Definition get_local_id (st : Store) (user : Claims.t) (req : Request)
    : Store * Response :=
  let local_id := params req in
  match Location_findOne st local_id (Claims.id user) with
  | None => (st, send 404 (Obj_error "erro" "Local não encontrado."))
  | Some location => (st, send 200 (Obj_location location))
  end.

(** The chains of [app.put('/local/:local_id', [auth, ...])]: each is
    optional, and the route never reads their errors. *)
Definition update_sanitized (b : object) : object :=
  optional trim_escape "address"
    (optional trim_escape "description" (optional trim_escape "name" b)).

Definition put_local_id (st : Store) (user : Claims.t) (req : Request)
    : Store * Response :=
  let local_id := params req in
  let updates := update_sanitized (body req) in
  try_catch
    (match Location_findOne st local_id (Claims.id user) with
     | None => Some (st, send 404 (Obj_error "erro" "Local não encontrado."))
     | Some location =>
       let location' := map_fold Location.set location updates in
       st' ← Location_save st location location';
       Some (st', send 200 (Obj_location location'))
     end)
    (st, send 500 (Obj_error "erro" "Erro ao atualizar local.")).

Definition delete_local_id (st : Store) (user : Claims.t) (req : Request)
    : Store * Response :=
  let local_id := params req in
  match Location_findOne st local_id (Claims.id user) with
  | None => (st, send 404 (Obj_error "erro" "Local não encontrado."))
  | Some location =>
    (Location_destroy st location,
     send 200 (Obj_message "mensagem" "Local deletado com sucesso."))
  end.

Definition get_local_id_maps (st : Store) (user : Claims.t) (req : Request)
    : Store * Response :=
  let local_id := params req in
  try_catch
    (match Location_findOne st local_id (Claims.id user) with
     | None => Some (st, send 404 (Obj_error "erro" "Local não encontrado."))
     | Some location =>
       let url := "https://nominatim.openstreetmap.org/search?q="
                  +:+ encodeURIComponent (js_String (Location.address location))
                  +:+ "&format=json&limit=1" in
       data ← axios_get url;
       match data with
       | [] => Some (st, send 404 (Obj_error "erro"
                                     "Endereço não encontrado no OpenStreetMap."))
       | (lat, lon) :: _ =>
         let googleMapsLink :=
           "https://www.google.com/maps/search/?api=1&query="
           +:+ lat +:+ "," +:+ lon in
         Some (st, send 200 (Obj_link googleMapsLink))
       end
     end)
    (st, send 500 (Obj_error "erro" "Erro ao gerar link do Google Maps.")).

Definition delete_usuario_id (st : Store) (user : Claims.t) (req : Request)
    : Store * Response :=
  let id := params req in
  match User_findByPk st id with
  | None => (st, send 404 (Obj_error "erro" "Usuário não encontrado."))
  | Some target =>
    let locations := Location_findAll st id in
    if decide (0 < length locations)%nat
    then (st, send 400 (Obj_error "erro"
            "Usuário não pode ser deletado, pois possui locais associados."))
    else (User_destroy st target,
          send 200 (Obj_message "mensagem" "Usuário deletado com sucesso."))
  end.

End routes.
End Part000.

(** ** The contract of jsonwebtoken

    A token signed without [expiresIn] carries [{ id, iat }] and verifies at
    every instant; a token signed with [expiresIn: '1h'] also carries
    [exp = iat + 3600] and verifies exactly at the instants before [exp]. *)
Definition jwt_contract (J : Jsonwebtoken) : Prop :=
  (∀ id t later,
     jwt_verify (jwt_sign id None t) later
     = Some {| Claims.id := id; Claims.iat := t; Claims.exp := None |})
  ∧ (∀ id t later,
       jwt_verify (jwt_sign id (Some "1h") t) later
       = if decide (later < t + 3600)
         then Some {| Claims.id := id; Claims.iat := t; Claims.exp := Some (t + 3600) |}
         else None).

(** ** Stand-ins for the libraries

    Small executable instances of the four interfaces, used to run the
    routes on concrete requests. The token of the stand-in writes the
    payload in unary; its password hash is a prefix. *)

Module Stub.

Fixpoint ones (n : nat) (rest : string) : string :=
  match n with
  | O => rest
  | S n' => String "1"%char (ones n' rest)
  end.

Definition enc (z : Z) (rest : string) : string :=
  String (if decide (z < 0) then "-" else "+")%char
         (ones (Z.abs_nat z) (String "."%char rest)).

Fixpoint count (s : string) : option (nat * string) :=
  match s with
  | String "1"%char s' => '(n, rest) ← count s'; Some (S n, rest)
  | String "."%char rest => Some (O, rest)
  | _ => None
  end.

Definition dec (s : string) : option (Z * string) :=
  match s with
  | String "+"%char s' => '(n, rest) ← count s'; Some (Z.of_nat n, rest)
  | String "-"%char s' => '(n, rest) ← count s'; Some (- Z.of_nat n, rest)
  | _ => None
  end.

Definition sign (id : Z) (expiresIn : option string) (t : Z) : string :=
  enc id (enc t (match expiresIn with
                 | None => EmptyString
                 | Some e => if decide (e = "1h") then "h" else "?"
                 end)).

Definition verify (token : string) (later : Z) : option Claims.t :=
  '(id, s1) ← dec token;
  '(t, s2) ← dec s1;
  if decide (s2 = EmptyString) then
    Some {| Claims.id := id; Claims.iat := t; Claims.exp := None |}
  else if decide (s2 = "h") then
    if decide (later < t + 3600)
    then Some {| Claims.id := id; Claims.iat := t; Claims.exp := Some (t + 3600) |}
    else None
  else None.

#[export] Instance jsonwebtoken : Jsonwebtoken :=
  {| jwt_sign := sign; jwt_verify := verify |}.

#[export] Instance bcrypt : Bcrypt :=
  {| bcrypt_hash := λ data _, "$2b$08$" +:+ data;
     bcrypt_compare := λ data encrypted, bool_decide (encrypted = "$2b$08$" +:+ data) |}.

#[export] Instance validator : Validator :=
  {| isEmail := λ s, bool_decide (is_Some (String.index 0 "@" s));
     isISO8601 := λ s, bool_decide (String.length s = 10%nat);
     toDate := JStr;
     normalizeEmail := λ s, s;
     trim := λ s, s;
     escape := λ s, s |}.

#[export] Instance axios : Axios :=
  {| encodeURIComponent := λ s, s;
     axios_get := λ _, Some [("40.785091", "-73.968285")] |}.

End Stub.

(** ** Sample requests and stores *)

Module Sample.

Definition empty_store : Store :=
  {| Users := []; Locations := []; Users_id_seq := 1; Locations_id_seq := 1 |}.

(** A request with a JSON body and a path parameter. *)
Definition request (fields : list (string * jsval)) (id : Z) : Request :=
  {| Authorization := None; params := id; body := list_to_map fields |}.

(** The payload of a token issued to the user [id]. *)
Definition caller (id : Z) : Claims.t :=
  {| Claims.id := id; Claims.iat := 0; Claims.exp := None |}.

(** The registration of §8 of the specification, with a password of the
    caller's choice. *)
Definition register_maria (password : string) : Request :=
  request [("name", JStr "Maria Oliveira"); ("gender", JStr "F");
           ("cpf", JStr "98765432150"); ("address", JStr "Avenida Brasil, 500");
           ("email", JStr "maria@example.com"); ("password", JStr password);
           ("birthdate", JStr "1985-07-15")] 0.

Definition login_as (email password : string) : Request :=
  request [("email", JStr email); ("password", JStr password)] 0.

Definition create_park : Request :=
  request [("name", JStr "Park"); ("description", JStr "desc");
           ("address", JStr "Central Park, NY")] 0.


Definition user (id : Z) (email password : string) : User.t :=
  {| User.id := id; User.name := JStr "User"; User.gender := JStr "F";
     User.cpf := JStr (pretty (11111111110 + id));
     User.address := JStr "123 Street"; User.email := JStr email;
     User.password := password; User.birthdate := JStr "1990-01-01" |}.

Definition park (id owner : Z) : Location.t :=
  {| Location.id := id; Location.name := JStr "Park";
     Location.description := JStr "desc";
     Location.address := JStr "Central Park, NY";
     Location.coordinates := JNull; Location.userId := JNum owner |}.

(** Two users and no location yet. *)
Definition registered : Store :=
  {| Users := [user 1 "userone@example.com" "$2b$08$password";
               user 2 "usertwo@example.com" "$2b$08$password"];
     Locations := [];
     Users_id_seq := 3; Locations_id_seq := 1 |}.

(** Two users; the first owns location 1, the second owns nothing. *)
Definition two_users : Store :=
  {| Users := [user 1 "userone@example.com" "$2b$08$password";
               user 2 "usertwo@example.com" "$2b$08$password"];
     Locations := [park 1 1];
     Users_id_seq := 3; Locations_id_seq := 2 |}.

End Sample.

(** ** Ownership *)

(** The user [userId] owns a location of identifier [id]. *)
Definition owns (st : Store) (userId id : Z) : Prop :=
  Exists (λ l, Location.id l = id ∧ Location.userId l = JNum userId) (Locations st).

(** The attributes an assignment can change on an instance read from the
    table. *)
Definition assignable : list string :=
  ["name"; "description"; "address"; "coordinates"; "userId"].

(** The fields of a location that a caller may send. *)
Definition fields : list string := ["name"; "description"; "address"; "coordinates"].

(** A partial update, as the swagger block of the update route describes
    its body: every key is one of [fields] and every value is a string. *)
Definition partial_update (b : object) : Prop :=
  map_Forall (λ k v, k ∈ fields ∧ isString v = true) b.

(** A text that a VARCHAR(255) column keeps as it is: no NUL character and
    at most 255 characters. *)
Definition storable (s : string) : bool :=
  negb (has_NUL s) && bool_decide (code_points s ≤ 255)%nat.

(** A value that a STRING column keeps as it is sent: a storable string. *)
Definition verbatim (v : jsval) : bool :=
  match v with
  | JStr s => storable s
  | _ => false
  end.

(** A body all of whose values the STRING columns keep as they are. *)
Definition fits (b : object) : Prop := map_Forall (λ _ v, verbatim v = true) b.

(** The value the part_000 update route assigns for a key of the body: the
    three text fields go through [.trim().escape()], any other key is taken
    as it is. *)
Definition sanitized `{Validator} (k : string) (v : jsval) : jsval :=
  if decide (k ∈ ["name"; "description"; "address"])
  then JStr (escape (trim (toString v)))
  else v.


(** ** The route tables

    The nine routes that both files register with [app.post], [app.get],
    [app.put] and [app.delete]. The two that take no [auth] are the
    registration and the login; the others run behind it. A table is what a
    request meets once the middleware registered with [app.use] (the body
    parser and, in part_000, helmet, cors and the rate limiter) has passed
    it on. *)

Inductive Route :=
| POST_usuario
| POST_login
| POST_local
| GET_local
| GET_local_id
| PUT_local_id
| DELETE_local_id
| GET_local_id_maps
| DELETE_usuario_id.

Section tables.
Context `{Validator, Bcrypt, Jsonwebtoken, Axios}.

Definition index_js (route : Route) (st : Store) (now : Z) (req : Request)
    : Store * Response :=
  match route with
  | POST_usuario => IndexJs.post_usuario st now req
  | POST_login => IndexJs.post_login st now req
  | POST_local => behind_auth IndexJs.post_local st now req
  | GET_local => behind_auth IndexJs.get_local st now req
  | GET_local_id => behind_auth IndexJs.get_local_id st now req
  | PUT_local_id => behind_auth IndexJs.put_local_id st now req
  | DELETE_local_id => behind_auth IndexJs.delete_local_id st now req
  | GET_local_id_maps => behind_auth IndexJs.get_local_id_maps st now req
  | DELETE_usuario_id => behind_auth IndexJs.delete_usuario_id st now req
  end.

Definition part_000 (route : Route) (st : Store) (now : Z) (req : Request)
    : Store * Response :=
  match route with
  | POST_usuario => Part000.post_usuario st now req
  | POST_login => Part000.post_login st now req
  | POST_local => behind_auth Part000.post_local st now req
  | GET_local => behind_auth Part000.get_local st now req
  | GET_local_id => behind_auth Part000.get_local_id st now req
  | PUT_local_id => behind_auth Part000.put_local_id st now req
  | DELETE_local_id => behind_auth Part000.delete_local_id st now req
  | GET_local_id_maps => behind_auth Part000.get_local_id_maps st now req
  | DELETE_usuario_id => behind_auth Part000.delete_usuario_id st now req
  end.

(** The identifier that [auth] verified for a request, if any. *)
Definition caller_of (now : Z) (req : Request) : option Z :=
  match auth now req with
  | Next user => Some (Claims.id user)
  | _ => None
  end.

End tables.

(** ** Invariants of the store *)

(** Primary keys: no two rows of a table share their id, and the serial of
    the table is above every id in use. *)
Definition keys_ok (st : Store) : Prop :=
  NoDup (Location.id <$> Locations st)
  ∧ Forall (λ l, Location.id l < Locations_id_seq st) (Locations st)
  ∧ NoDup (User.id <$> Users st)
  ∧ Forall (λ u, User.id u < Users_id_seq st) (Users st).

(** No two users share their cpf, no two users share their email. *)
Definition credentials_unique (st : Store) : Prop :=
  NoDup (User.cpf <$> Users st) ∧ NoDup (User.email <$> Users st).

(** What one request can do to the store, given the identifier that [auth]
    verified for it. *)
Inductive effect (caller : option Z) (st : Store) : Store → Prop :=
| effect_none :
    effect caller st st
| effect_user_created (user : User.t) :
    User.id user = Users_id_seq st →
    Forall (λ u, User.cpf u ≠ User.cpf user ∧ User.email u ≠ User.email user)
      (Users st) →
    effect caller st (with_Users st (Users st ++ [user]) (Users_id_seq st + 1))
| effect_location_created (userId : Z) (l : Location.t) :
    caller = Some userId →
    Location.id l = Locations_id_seq st →
    Location.userId l = JNum userId →
    effect caller st
      (with_Locations st (Locations st ++ [l]) (Locations_id_seq st + 1))
| effect_location_saved (userId : Z) (l l' : Location.t) :
    caller = Some userId →
    Location_findOne st (Location.id l) userId = Some l →
    Location.id l' = Location.id l →
    effect caller st
      (with_Locations st
         ((λ row, if decide (Location.id row = Location.id l') then l' else row)
            <$> Locations st)
         (Locations_id_seq st))
| effect_location_destroyed (userId : Z) (l : Location.t) :
    caller = Some userId →
    Location_findOne st (Location.id l) userId = Some l →
    effect caller st (Location_destroy st l)
| effect_user_destroyed (userId : Z) (target : User.t) :
    caller = Some userId →
    User_findByPk st (User.id target) = Some target →
    Location_findAll st (User.id target) = [] →
    effect caller st (User_destroy st target).

(** ** The seeders

    [bulkInsert] appends the rows under the next values of the serial key
    and runs no validation of the model; [bulkDelete] with a null where
    clause removes every row of the table. A foreign key from userId to
    the users, if the migration declares one, is not part of the model. *)

Module Seeders.

(** src/seeders/20240802183909-demo-locations.js *)
Definition demo_locations_up (st : Store) : Store :=
  with_Locations st
    (Locations st
     ++ [ {| Location.id := Locations_id_seq st;
             Location.name := JStr "Central Park";
             Location.description := JStr "A large public park in New York City.";
             Location.address := JStr "New York, NY 10024";
             Location.coordinates := JStr "40.785091,-73.968285";
             Location.userId := JNum 1 |};
          {| Location.id := Locations_id_seq st + 1;
             Location.name := JStr "Golden Gate Park";
             Location.description := JStr "A large urban park in San Francisco.";
             Location.address := JStr "San Francisco, CA 94122";
             Location.coordinates := JStr "37.769421,-122.486214";
             Location.userId := JNum 2 |} ])
    (Locations_id_seq st + 2).

Definition demo_locations_down (st : Store) : Store :=
  with_Locations st [] (Locations_id_seq st).

(** The users seeder that follows the Location model in part_002. *)
Definition demo_users_up `{Bcrypt} (st : Store) : Store :=
  with_Users st
    (Users st
     ++ [ {| User.id := Users_id_seq st;
             User.name := JStr "User One"; User.gender := JStr "Male";
             User.cpf := JStr "11111111111";
             User.address := JStr "123 Street, City, Country";
             User.email := JStr "userone@example.com";
             User.password := bcrypt_hash "password" 8;
             User.birthdate := JStr "1990-01-01" |};
          {| User.id := Users_id_seq st + 1;
             User.name := JStr "User Two"; User.gender := JStr "Female";
             User.cpf := JStr "22222222222";
             User.address := JStr "456 Street, City, Country";
             User.email := JStr "usertwo@example.com";
             User.password := bcrypt_hash "password" 8;
             User.birthdate := JStr "1985-05-05" |} ])
    (Users_id_seq st + 2).

End Seeders.

(** ** Requests that carry a token *)

Module Scenario.

(** A request whose Authorization header holds a token that the stand-in
    signed for the user [id] at the instant 0, without expiry. *)
Definition bearer (id : Z) (fields : list (string * jsval)) (param : Z) : Request :=
  {| Authorization := Some ("Bearer " +:+ Stub.sign id None 0);
     params := param; body := list_to_map fields |}.

(** The two tables run on the stand-ins. *)
Definition index_js : Route → Store → Z → Request → Store * Response :=
  @index_js Stub.bcrypt Stub.jsonwebtoken Stub.axios.

Definition part_000 : Route → Store → Z → Request → Store * Response :=
  @part_000 Stub.validator Stub.bcrypt Stub.jsonwebtoken Stub.axios.

End Scenario.

(** * Properties *)

(** ** Lists of rows *)

Section rows.
Context {A : Type} (P : A → Prop) `{!∀ x, Decision (P x)}.

Lemma head_filter_None (l : list A) :
  head (filter P l) = None ↔ ∀ x, x ∈ l → ¬ P x.
Proof.
  rewrite head_None. split.
  - intros Hnil x Hx HP. by eapply filter_nil_not_elem_of.
  - intros Hall. induction l as [|y l IH]; [done|].
    rewrite filter_cons. destruct (decide (P y)) as [HP|_].
    + exfalso. apply (Hall y); [left|done].
    + apply IH. intros x Hx. apply Hall. by right.
Qed.

Lemma head_filter_Some (l : list A) (x : A) :
  head (filter P l) = Some x → x ∈ l ∧ P x.
Proof.
  intros Hhead. apply head_Some_elem_of in Hhead.
  apply list_elem_of_filter in Hhead. tauto.
Qed.

Lemma head_filter_is_Some (l : list A) (x : A) :
  x ∈ l → P x → is_Some (head (filter P l)).
Proof.
  intros Hx HP. destruct (head (filter P l)) as [y|] eqn:Hhead; [by eexists|].
  exfalso. by apply (proj1 (head_filter_None l) Hhead x).
Qed.

End rows.

Lemma Location_findOne_None (st : Store) (id userId : Z) :
  Location_findOne st id userId = None ↔ ¬ owns st userId id.
Proof.
  unfold Location_findOne, owns. rewrite head_filter_None, Exists_exists. split.
  - intros Hall (l & Hl & HP). by apply (Hall l Hl).
  - intros Hno l Hl HP. apply Hno. by exists l.
Qed.

Lemma Location_findOne_Some (st : Store) (id userId : Z) (l : Location.t) :
  Location_findOne st id userId = Some l →
  l ∈ Locations st ∧ Location.id l = id ∧ Location.userId l = JNum userId.
Proof. intros Hfind. apply head_filter_Some in Hfind. tauto. Qed.

(** ** Locations of another owner *)

(** C2. For an authenticated caller and a location identifier that the
    caller owns no location of, both within the range of the integer keys,
    get, update, delete and map link all leave the store as it is and
    answer 404 with the one fixed message, in both versions of the routes.
    The hypothesis does not tell a location that does not exist from one
    that another user owns, and neither does the answer. *)
Theorem not_owned_is_not_found (V : Validator) (X : Axios)
    (st : Store) (user : Claims.t) (req : Request) :
  int32 (Claims.id user) →
  int32 (params req) →
  ¬ owns st (Claims.id user) (params req) →
  let absent key := (st, send 404 (Obj_error key "Local não encontrado.")) in
  IndexJs.get_local_id st user req = absent "error"
  ∧ IndexJs.put_local_id st user req = absent "error"
  ∧ IndexJs.delete_local_id st user req = absent "error"
  ∧ IndexJs.get_local_id_maps st user req = absent "error"
  ∧ Part000.get_local_id st user req = absent "erro"
  ∧ Part000.put_local_id st user req = absent "erro"
  ∧ Part000.delete_local_id st user req = absent "erro"
  ∧ Part000.get_local_id_maps st user req = absent "erro".
Proof.
  intros _ _ Hno%Location_findOne_None absent.
  unfold IndexJs.get_local_id, IndexJs.put_local_id, IndexJs.delete_local_id,
    IndexJs.get_local_id_maps, Part000.get_local_id, Part000.put_local_id,
    Part000.delete_local_id, Part000.get_local_id_maps.
  rewrite Hno. by repeat split.
Qed.

(** The same answer for location 7, which does not exist, and for
    location 1, which user 1 owns, when user 2 asks. *)
Lemma not_owned_is_not_found_witness :
  let st := Sample.two_users in
  let missing := Sample.request [] 7 in
  let foreign := Sample.request [("name", JStr "Mine")] 1 in
  int32 2 ∧ int32 7 ∧ int32 1
  ∧ ¬ owns st 2 7 ∧ ¬ owns st 2 1
  ∧ IndexJs.put_local_id st (Sample.caller 2) missing
    = IndexJs.put_local_id st (Sample.caller 2) foreign
  ∧ Part000.get_local_id st (Sample.caller 2) foreign
    = (st, send 404 (Obj_error "erro" "Local não encontrado.")).
Proof.
  intros st missing foreign.
  assert (H7 : ¬ owns st (Claims.id (Sample.caller 2)) (params missing))
    by (unfold owns; compute_done).
  assert (H1 : ¬ owns st (Claims.id (Sample.caller 2)) (params foreign))
    by (unfold owns; compute_done).
  assert (R2 : int32 2) by (unfold int32; lia).
  assert (R7 : int32 7) by (unfold int32; lia).
  assert (R1 : int32 1) by (unfold int32; lia).
  pose proof (not_owned_is_not_found Stub.validator Stub.axios st (Sample.caller 2)
                missing R2 R7 H7) as A.
  pose proof (not_owned_is_not_found Stub.validator Stub.axios st (Sample.caller 2)
                foreign R2 R1 H1) as B.
  split; [exact R2|]. split; [exact R7|]. split; [exact R1|].
  split; [exact H7|]. split; [exact H1|]. split.
  - rewrite (proj1 (proj2 A)), (proj1 (proj2 B)). reflexivity.
  - exact (proj1 (proj2 (proj2 (proj2 (proj2 B))))).
Defined.

(** ** Deleting a user *)

Lemma User_findByPk_None (st : Store) (id : Z) :
  User_findByPk st id = None ↔ Forall (λ u, User.id u ≠ id) (Users st).
Proof. unfold User_findByPk. by rewrite head_filter_None, Forall_forall. Qed.

Lemma User_findByPk_Some (st : Store) (id : Z) :
  Exists (λ u, User.id u = id) (Users st) →
  ∃ target, User_findByPk st id = Some target ∧ User.id target = id.
Proof.
  intros (u & Hu & Hid)%Exists_exists.
  destruct (head_filter_is_Some (λ u, User.id u = id) (Users st) u Hu Hid)
    as [target Htarget].
  exists target. split; [done|]. by apply head_filter_Some in Htarget as [_ ?].
Qed.

Lemma Location_findAll_nil (st : Store) (userId : Z) :
  Location_findAll st userId = []
  ↔ Forall (λ l, Location.userId l ≠ JNum userId) (Locations st).
Proof.
  unfold Location_findAll. by rewrite <-head_None, head_filter_None, Forall_forall.
Qed.

Lemma User_destroy_gone (st : Store) (target : User.t) :
  User_findByPk (User_destroy st target) (User.id target) = None.
Proof.
  apply User_findByPk_None, Forall_forall. simpl.
  by intros u [Hne _]%list_elem_of_filter.
Qed.

(** C8. Deleting the user named by the path parameter, whoever the
    authenticated caller is: when no user has that identifier (an integer
    within the range of the keys) the answer is 404 and nothing changes;
    when the user owns a location the answer is the
    conflict (status 400) and nothing changes, so the user stays and no
    location is removed; otherwise the answer is 200, the Users table loses
    exactly the rows of that identifier, the Locations table is untouched,
    and a lookup of the identifier finds nothing afterwards. Both versions
    of the route. *)
Theorem delete_usuario_id_cases (st : Store) (user : Claims.t) (req : Request) :
  let id := params req in
  (int32 id →
   Forall (λ u, User.id u ≠ id) (Users st) →
   IndexJs.delete_usuario_id st user req
   = (st, send 404 (Obj_error "error" "Usuário não encontrado."))
   ∧ Part000.delete_usuario_id st user req
     = (st, send 404 (Obj_error "erro" "Usuário não encontrado.")))
  ∧ (Exists (λ u, User.id u = id) (Users st) →
     Exists (λ l, Location.userId l = JNum id) (Locations st) →
     IndexJs.delete_usuario_id st user req
     = (st, send 400 (Obj_error "error"
              "Usuário não pode ser deletado, pois possui locais associados."))
     ∧ Part000.delete_usuario_id st user req
       = (st, send 400 (Obj_error "erro"
                "Usuário não pode ser deletado, pois possui locais associados.")))
  ∧ (Exists (λ u, User.id u = id) (Users st) →
     Forall (λ l, Location.userId l ≠ JNum id) (Locations st) →
     ∃ st',
       IndexJs.delete_usuario_id st user req
       = (st', send 200 (Obj_message "message" "Usuário deletado com sucesso."))
       ∧ Part000.delete_usuario_id st user req
         = (st', send 200 (Obj_message "mensagem" "Usuário deletado com sucesso."))
       ∧ Users st' = filter (λ u, User.id u ≠ id) (Users st)
       ∧ Locations st' = Locations st
       ∧ User_findByPk st' id = None).
Proof.
  intros id. unfold IndexJs.delete_usuario_id, Part000.delete_usuario_id.
  fold id. split; [|split].
  - intros _ Hnone%User_findByPk_None. by rewrite Hnone.
  - intros (target & -> & _)%User_findByPk_Some Hloc.
    destruct (Location_findAll st id) as [|l ls] eqn:Hall.
    + apply Location_findAll_nil in Hall. apply Exists_exists in Hloc.
      destruct Hloc as (l & Hl & Hown). rewrite Forall_forall in Hall.
      by destruct (Hall l Hl).
    + case_decide as Hlt; [done|]. simpl in Hlt. lia.
  - intros (target & -> & Hid)%User_findByPk_Some Hloc%Location_findAll_nil.
    rewrite Hloc. simpl. exists (User_destroy st target).
    repeat split; simpl; try by rewrite Hid.
    rewrite <-Hid. apply User_destroy_gone.
Qed.

(** On the store of two users: user 9 does not exist, user 1 owns a
    location, user 2 owns none; user 1 is the caller each time. *)
Lemma delete_usuario_id_cases_witness :
  let st := Sample.two_users in
  let me := Sample.caller 1 in
  status (IndexJs.delete_usuario_id st me (Sample.request [] 9)).2 = 404
  ∧ IndexJs.delete_usuario_id st me (Sample.request [] 1)
    = (st, send 400 (Obj_error "error"
             "Usuário não pode ser deletado, pois possui locais associados."))
  ∧ ∃ st', IndexJs.delete_usuario_id st me (Sample.request [] 2)
           = (st', send 200 (Obj_message "message" "Usuário deletado com sucesso."))
           ∧ User_findByPk st' 2 = None.
Proof.
  intros st me.
  destruct (delete_usuario_id_cases st me (Sample.request [] 9)) as (A & _ & _).
  destruct (delete_usuario_id_cases st me (Sample.request [] 1)) as (_ & B & _).
  destruct (delete_usuario_id_cases st me (Sample.request [] 2)) as (_ & _ & C).
  split; [|split].
  - rewrite (proj1 (A ltac:(unfold int32; simpl; lia) ltac:(compute_done))).
    reflexivity.
  - exact (proj1 (B ltac:(compute_done) ltac:(compute_done))).
  - destruct (C ltac:(compute_done) ltac:(compute_done)) as (st' & E & _ & _ & _ & F).
    exists st'. split; [exact E|exact F].
Defined.

(** ** The auth middleware *)

(** What [auth] does with a header that is present: an empty remainder
    after the first "Bearer " is removed answers 401, a remainder that does
    not verify answers 400, and a verified one becomes [req.user]. *)
Lemma auth_with_header (J : Jsonwebtoken) (now : Z) (req : Request) (header : string) :
  Authorization req = Some header →
  auth now req =
    if decide (replace "Bearer " EmptyString header = EmptyString)
    then Sent (send 401 (Obj_error "erro" "Acesso negado. Nenhum token fornecido."))
    else match jwt_verify (replace "Bearer " EmptyString header) now with
         | Some decoded => Next decoded
         | None => Sent (send 400 (Obj_error "erro" "Token inválido."))
         end.
Proof. intros Hheader. unfold auth. by rewrite Hheader. Qed.

(** The handler of a protected route runs only on the payload that [auth]
    verified. *)
Lemma behind_auth_runs_handler (J : Jsonwebtoken)
    (handler : Store → Claims.t → Request → Store * Response)
    (st : Store) (now : Z) (req : Request) :
  (∀ user, auth now req ≠ Next user) →
  (behind_auth handler st now req).1 = st.
Proof.
  intros Hno. unfold behind_auth.
  destruct (auth now req) as [user| |]; [by destruct (Hno user)|done|done].
Qed.

(** C3, at a request without an Authorization header: [auth] throws before
    it reaches its own test of the token, so the route answers neither 401
    nor 400 but the 500 of the framework; the handler does not run. *)
Theorem auth_without_header_throws (J : Jsonwebtoken)
    (handler : Store → Claims.t → Request → Store * Response)
    (st : Store) (now id : Z) (b : object) :
  let req := {| Authorization := None; params := id; body := b |} in
  auth now req
  = Thrown "TypeError: Cannot read properties of undefined (reading 'replace')"
  ∧ auth now req
    ≠ Sent (send 401 (Obj_error "erro" "Acesso negado. Nenhum token fornecido."))
  ∧ behind_auth handler st now req = (st, send 500 Express_error).
Proof. by repeat split. Qed.

(** ** The owner of a location *)

(** C1, at an update whose body names userId: user 1 creates location 1 and
    is its owner; the same user then sends [{ userId: 2 }] to the update
    route, which assigns every key of the body to the row: the stored owner
    becomes user 2. Both versions of the update route. *)
Theorem put_local_id_reassigns_owner (V : Validator) :
  let me := Sample.caller 1 in
  let give_away := Sample.request [("userId", JNum 2)] 1 in
  IndexJs.post_local Sample.registered me Sample.create_park
  = (Sample.two_users, send 201 (Obj_location (Sample.park 1 1)))
  ∧ (IndexJs.put_local_id Sample.two_users me give_away).2
    = send 200 (Obj_location (Sample.park 1 2))
  ∧ Locations (IndexJs.put_local_id Sample.two_users me give_away).1
    = [Sample.park 1 2]
  ∧ (Part000.put_local_id Sample.two_users me give_away).2
    = send 200 (Obj_location (Sample.park 1 2))
  ∧ Locations (Part000.put_local_id Sample.two_users me give_away).1
    = [Sample.park 1 2].
Proof. by vm_compute. Qed.

(** ** Assigning the keys of a body to a row *)

Lemma Location_get_set_eq (k : string) (v : jsval) (l : Location.t) :
  k ∈ assignable → Location.get k (Location.set k v l) = v.
Proof.
  unfold assignable. rewrite !elem_of_cons, elem_of_nil.
  intros [->|[->|[->|[->|[->|[]]]]]]; reflexivity.
Qed.

Lemma Location_get_set_ne (k i : string) (v : jsval) (l : Location.t) :
  k ≠ i → Location.get k (Location.set i v l) = Location.get k l.
Proof.
  intros Hne. unfold Location.set.
  repeat case_decide; subst; try done;
    unfold Location.get; repeat case_decide; subst; done.
Qed.

Lemma Location_set_other (i : string) (v : jsval) (l : Location.t) :
  i ∉ assignable → Location.set i v l = l.
Proof.
  unfold assignable. rewrite !not_elem_of_cons. intros (?&?&?&?&?&_).
  unfold Location.set. by repeat case_decide.
Qed.

(** The loop [Object.keys(updates).forEach(...)]: an assignable attribute
    takes the value the body gives for it, every other one keeps its
    value. *)
Lemma assign_all (l : Location.t) (updates : object) (k : string) :
  Location.get k (map_fold Location.set l updates)
  = if decide (k ∈ assignable)
    then default (Location.get k l) (updates !! k)
    else Location.get k l.
Proof.
  revert k. apply (map_fold_weak_ind (λ r m, ∀ k,
    Location.get k r = if decide (k ∈ assignable)
                       then default (Location.get k l) (m !! k)
                       else Location.get k l)).
  - intros k. rewrite lookup_empty. by case_decide.
  - intros i x m r Hfresh IH k. destruct (decide (k = i)) as [->|Hne].
    + rewrite lookup_insert_eq. case_decide as Hin.
      * by apply Location_get_set_eq.
      * rewrite Location_set_other by done. rewrite IH. by rewrite decide_False.
    + rewrite Location_get_set_ne, lookup_insert_ne by done. apply IH.
Qed.

Lemma assign_all_id (l : Location.t) (updates : object) :
  Location.id (map_fold Location.set l updates) = Location.id l.
Proof.
  pose proof (assign_all l updates "id") as Hid.
  rewrite decide_False in Hid by compute_done.
  by injection Hid.
Qed.

(** ** Updating a location *)

Lemma findOne_after_save (rows : list Location.t) (id userId : Z) (l l' : Location.t) :
  let mine := λ row, Location.id row = id ∧ Location.userId row = JNum userId in
  head (filter mine rows) = Some l →
  mine l' →
  head (filter mine
          ((λ row, if decide (Location.id row = Location.id l') then l' else row)
             <$> rows)) = Some l'.
Proof.
  intros mine Hhead [Hid Hown]. induction rows as [|r rs IH]; [done|].
  rewrite fmap_cons, filter_cons. destruct (decide (Location.id r = Location.id l')) as [Heq|Hne].
  - by rewrite decide_True.
  - rewrite filter_cons in Hhead.
    rewrite decide_False in Hhead by (intros [? _]; congruence).
    rewrite decide_False by (intros [? _]; congruence). by apply IH.
Qed.

Lemma other_rows_after_save (rows : list Location.t) (l' r : Location.t) :
  Location.id r ≠ Location.id l' →
  r ∈ (λ row, if decide (Location.id row = Location.id l') then l' else row) <$> rows
  ↔ r ∈ rows.
Proof.
  intros Hne. rewrite list_elem_of_fmap. split.
  - intros (y & -> & Hy). by case_decide.
  - intros Hr. exists r. by rewrite decide_False.
Qed.

Lemma split_at_all (n : nat) (s : string) :
  (code_points s ≤ n)%nat → split_at n s = (s, EmptyString).
Proof.
  revert n. induction s as [|c s IH]; intros n Hn; [done|]. simpl in *.
  destruct (continuation c).
  - by rewrite IH by lia.
  - destruct n as [|m]; [lia|]. by rewrite IH by lia.
Qed.

Lemma VARCHAR255_storable (s : string) : storable s = true → VARCHAR255 s = Some s.
Proof.
  unfold storable, VARCHAR255.
  intros [Hnul Hlen%bool_decide_eq_true]%andb_true_iff.
  apply negb_true_iff in Hnul. rewrite Hnul. by rewrite split_at_all.
Qed.

Lemma STRING_verbatim (v : jsval) : verbatim v = true → STRING v = Some v.
Proof.
  destruct v as [| |s|n]; try done. simpl. intros Hs.
  by rewrite VARCHAR255_storable.
Qed.

Lemma updated_verbatim (stored sent : jsval) :
  sent = stored ∨ verbatim sent = true → updated stored sent = Some sent.
Proof.
  unfold updated. intros Hsent. case_decide as Hsame; [by rewrite Hsame|].
  destruct Hsent as [?|Hsent]; [done|]. by apply STRING_verbatim.
Qed.

Lemma Location_update_id (old new row : Location.t) :
  Location_update old new = Some row →
  Location.id row = Location.id new ∧ Location.userId row = Location.userId new.
Proof.
  unfold Location_update.
  destruct (updated _ (Location.name new)); simpl; [|done].
  destruct (updated _ (Location.description new)); simpl; [|done].
  destruct (updated _ (Location.address new)); simpl; [|done].
  destruct (updated _ (Location.coordinates new)); simpl; [|done].
  by intros [= <-].
Qed.

(** An instance all of whose changed texts are kept as they are is the row
    that [save()] leaves. *)
Lemma Location_update_verbatim (old new : Location.t) :
  (∀ k, k ∈ fields →
        Location.get k new = Location.get k old ∨ verbatim (Location.get k new) = true) →
  Location_update old new = Some new.
Proof.
  intros Hkept. unfold Location_update.
  rewrite (updated_verbatim (Location.name old) (Location.name new)
             (Hkept "name" ltac:(compute_done))).
  rewrite (updated_verbatim (Location.description old) (Location.description new)
             (Hkept "description" ltac:(compute_done))).
  rewrite (updated_verbatim (Location.address old) (Location.address new)
             (Hkept "address" ltac:(compute_done))).
  rewrite (updated_verbatim (Location.coordinates old) (Location.coordinates new)
             (Hkept "coordinates" ltac:(compute_done))).
  by destruct new.
Qed.

Lemma fields_assignable (k : string) : k ∈ fields → k ∈ assignable.
Proof. unfold fields, assignable. rewrite !elem_of_cons. tauto. Qed.

Lemma userId_not_field : "userId" ∉ fields.
Proof. compute_done. Qed.

(** The assignment of a partial update followed by [save()]. *)
Lemma save_partial_update (st : Store) (id userId : Z) (l : Location.t) (updates : object) :
  Location_findOne st id userId = Some l →
  partial_update updates →
  fits updates →
  let l' := map_fold Location.set l updates in
  (∀ k, Location.get k l' = default (Location.get k l) (updates !! k))
  ∧ ∃ st', Location_save st l l' = Some st'
           ∧ Location_findOne st' id userId = Some l'
           ∧ Users st' = Users st
           ∧ ∀ r, Location.id r ≠ id → r ∈ Locations st' ↔ r ∈ Locations st.
Proof.
  intros Hfind Hpartial Hfits l'.
  assert (Hget : ∀ k, Location.get k l' = default (Location.get k l) (updates !! k)).
  { intros k. unfold l'. rewrite assign_all. case_decide as Hin; [done|].
    destruct (updates !! k) as [v|] eqn:Hk; [|done].
    destruct (Hpartial k v Hk) as [Hfield _]. exfalso.
    by apply Hin, fields_assignable. }
  split; [done|].
  destruct (Location_findOne_Some _ _ _ _ Hfind) as (_ & Hid & Hown).
  assert (Hid' : Location.id l' = id) by (unfold l'; by rewrite assign_all_id).
  assert (Hown' : Location.userId l' = JNum userId).
  { pose proof (Hget "userId") as Hu. destruct (updates !! "userId") as [v|] eqn:Hk.
    - destruct (Hpartial _ _ Hk) as [Hfield _]. by apply userId_not_field in Hfield.
    - by rewrite <-Hown. }
  assert (Hrow : Location_update l l' = Some l').
  { apply Location_update_verbatim. intros k _. rewrite Hget.
    destruct (updates !! k) as [v|] eqn:Hk; [right|by left].
    exact (Hfits _ _ Hk). }
  unfold Location_save. rewrite decide_True.
  - rewrite Hrow. eexists. split; [done|]. simpl. split; [|split; [done|]].
    + by apply (findOne_after_save _ _ _ l).
    + intros r Hr. apply other_rows_after_save. by rewrite Hid'.
  - apply Forall_forall. intros k _ Hchanged. rewrite Hget in *.
    destruct (updates !! k) as [v|] eqn:Hk; [|done].
    destruct (Hpartial _ _ Hk) as [_ Hstring]. by destruct v.
Qed.

Lemma optional_trim_escape_lookup (V : Validator) (f : string) (b : object) (k : string) :
  b !! f ≠ Some JUndefined →
  optional trim_escape f b !! k
  = if decide (k = f)
    then (λ v, JStr (escape (trim (toString v)))) <$> b !! k
    else b !! k.
Proof.
  intros Hdefined. unfold optional, prop.
  destruct (b !! f) as [v|] eqn:Hf; simpl.
  - destruct (decide (v = JUndefined)) as [->|_]; [done|].
    unfold trim_escape, prop. rewrite Hf. simpl.
    destruct (decide (k = f)) as [->|Hne].
    + by rewrite lookup_insert_eq, Hf.
    + by rewrite lookup_insert_ne by congruence.
  - destruct (decide (k = f)) as [->|Hne]; [|done]. by rewrite Hf.
Qed.

Lemma optional_trim_escape_defined (V : Validator) (f : string) (b : object) :
  (∀ g, b !! g ≠ Some JUndefined) →
  ∀ g, optional trim_escape f b !! g ≠ Some JUndefined.
Proof.
  intros Hdefined g. rewrite optional_trim_escape_lookup by done.
  case_decide; [|done]. by destruct (b !! g).
Qed.

(** The body that the part_000 update route assigns from. *)
Lemma update_sanitized_lookup (V : Validator) (b : object) (k : string) :
  partial_update b →
  Part000.update_sanitized b !! k = sanitized k <$> b !! k.
Proof.
  intros Hpartial.
  assert (Hdefined : ∀ f, b !! f ≠ Some JUndefined).
  { intros f Hf. by destruct (Hpartial _ _ Hf) as [_ ?]. }
  pose proof (optional_trim_escape_defined V "name" b Hdefined) as Hname.
  pose proof (optional_trim_escape_defined V "description" _ Hname) as Hdescription.
  unfold Part000.update_sanitized.
  rewrite optional_trim_escape_lookup by done.
  rewrite optional_trim_escape_lookup by done.
  rewrite optional_trim_escape_lookup by done.
  unfold sanitized.
  destruct (decide (k ∈ ["name"; "description"; "address"])) as [Hin|Hout].
  - revert Hin. rewrite !elem_of_cons, elem_of_nil.
    by intros [->|[->|[->|[]]]].
  - revert Hout. rewrite !not_elem_of_cons. intros (?&?&?&_).
    rewrite !decide_False by done. by destruct (b !! k).
Qed.

Lemma update_sanitized_partial (V : Validator) (b : object) :
  partial_update b → partial_update (Part000.update_sanitized b).
Proof.
  intros Hpartial k v. rewrite update_sanitized_lookup by done.
  destruct (b !! k) as [w|] eqn:Hk; [|done]. simpl. intros [= <-].
  destruct (Hpartial _ _ Hk) as [Hfield Hstring]. split; [done|].
  unfold sanitized. by case_decide.
Qed.

(** C4, as the code has it. The caller owns the location and the body is
    a partial update: its keys are among name, description, address and
    coordinates, its values are strings. When the columns keep the texts
    written to them as they are (at most 255 characters, no NUL; in
    part_000, the texts that [.trim().escape()] returns), the update route
    answers 200 with the merged row [l']; every attribute that the body
    does not name has in [l'] the value it had before; every attribute the
    body names has the value sent (in part_000, the value sent after
    [.trim().escape()] for the three text fields); the merged row is what
    the table holds for that identifier afterwards, the users and the other
    locations are as before. So a body with only name leaves description
    and address as they were. *)
Theorem partial_update_frame (V : Validator)
    (st : Store) (user : Claims.t) (req : Request) (l : Location.t) :
  Location_findOne st (params req) (Claims.id user) = Some l →
  partial_update (body req) →
  (fits (body req) →
   ∃ st' l',
     IndexJs.put_local_id st user req = (st', send 200 (Obj_location l'))
     ∧ (∀ k, Location.get k l' = default (Location.get k l) (body req !! k))
     ∧ Location_findOne st' (params req) (Claims.id user) = Some l'
     ∧ Users st' = Users st
     ∧ ∀ r, Location.id r ≠ params req → r ∈ Locations st' ↔ r ∈ Locations st)
  ∧ (fits (Part000.update_sanitized (body req)) →
     ∃ st' l',
       Part000.put_local_id st user req = (st', send 200 (Obj_location l'))
       ∧ (∀ k, Location.get k l'
               = default (Location.get k l) (sanitized k <$> body req !! k))
       ∧ Location_findOne st' (params req) (Claims.id user) = Some l'
       ∧ Users st' = Users st
       ∧ ∀ r, Location.id r ≠ params req → r ∈ Locations st' ↔ r ∈ Locations st).
Proof.
  intros Hfind Hpartial. split.
  - intros Hfits.
    destruct (save_partial_update _ _ _ _ _ Hfind Hpartial Hfits)
      as (Hget & st' & Hsave & Hafter & Husers & Hothers).
    exists st', (map_fold Location.set l (body req)).
    unfold IndexJs.put_local_id. rewrite Hfind. simpl. by rewrite Hsave.
  - intros Hfits.
    destruct (save_partial_update _ _ _ _ _ Hfind
                (update_sanitized_partial V _ Hpartial) Hfits)
      as (Hget & st' & Hsave & Hafter & Husers & Hothers).
    exists st', (map_fold Location.set l (Part000.update_sanitized (body req))).
    unfold Part000.put_local_id. rewrite Hfind. simpl. rewrite Hsave. simpl.
    split; [done|]. split; [|done].
    intros k. rewrite Hget. by rewrite update_sanitized_lookup.
Qed.

(** C4 as stated fails: a body with only the key name is a partial update,
    and when its value is null the index.js route answers 500 and the table
    keeps the row as it was. *)
Lemma null_name_is_not_applied :
  let req := Sample.request [("name", JNull)] 1 in
  (∀ k, k ∈ dom (body req) → k ∈ fields)
  ∧ Location_findOne Sample.two_users 1 1 = Some (Sample.park 1 1)
  ∧ IndexJs.put_local_id Sample.two_users (Sample.caller 1) req
    = (Sample.two_users, send 500 (Obj_error "error" "Erro ao atualizar local.")).
Proof.
  intros req. split; [|split; by vm_compute].
  intros k Hk. apply elem_of_dom in Hk as [v Hk].
  assert (Hkeys : map_Forall (λ k _, k ∈ fields) (body req)) by compute_done.
  exact (Hkeys _ _ Hk).
Qed.

(** User 1 renames location 1: the description and the address stay, in
    both versions of the route. *)
Lemma partial_update_frame_witness :
  let req := Sample.request [("name", JStr "Gym")] 1 in
  (∃ st' l',
     IndexJs.put_local_id Sample.two_users (Sample.caller 1) req
     = (st', send 200 (Obj_location l'))
     ∧ Location.name l' = JStr "Gym"
     ∧ Location.description l' = JStr "desc"
     ∧ Location.address l' = JStr "Central Park, NY"
     ∧ Location_findOne st' 1 1 = Some l')
  ∧ (∃ st' l',
       @Part000.put_local_id Stub.validator Sample.two_users (Sample.caller 1) req
       = (st', send 200 (Obj_location l'))
       ∧ Location.name l' = JStr "Gym"
       ∧ Location.description l' = JStr "desc"
       ∧ Location_findOne st' 1 1 = Some l').
Proof.
  intros req.
  destruct (partial_update_frame Stub.validator Sample.two_users (Sample.caller 1)
              req (Sample.park 1 1)) as [Hindex Hpart].
  - reflexivity.
  - unfold partial_update. compute_done.
  - split.
    + destruct Hindex as (st' & l' & Hput & Hget & Hafter & _);
        [unfold fits; compute_done|].
      exists st', l'. split; [exact Hput|].
      split; [exact (Hget "name")|]. split; [exact (Hget "description")|].
      split; [exact (Hget "address")|exact Hafter].
    + destruct Hpart as (st' & l' & Hput & Hget & Hafter & _);
        [unfold fits; compute_done|].
      exists st', l'. split; [exact Hput|].
      split; [exact (Hget "name")|]. split; [exact (Hget "description")|exact Hafter].
Defined.

(** ** Creating a location *)

Lemma prop_trim_escape (V : Validator) (f : string) (b : object) (k : string) :
  prop (trim_escape f b) k
  = if decide (k = f) then JStr (escape (trim (toString (prop b f)))) else prop b k.
Proof.
  unfold trim_escape. unfold prop at 1. destruct (decide (k = f)) as [->|Hne].
  - by rewrite lookup_insert_eq.
  - by rewrite lookup_insert_ne by congruence.
Qed.

(** What the part_000 create route reads for a text field. *)
Lemma prop_local_sanitized (V : Validator) (b : object) (k : string) :
  k ∈ Location.required →
  prop (Part000.local_sanitized b) k = JStr (escape (trim (toString (prop b k)))).
Proof.
  unfold Location.required, Part000.local_sanitized.
  rewrite !elem_of_cons, elem_of_nil, !prop_trim_escape.
  intros [->|[->|[->|[]]]]; reflexivity.
Qed.





(** ** Failed logins *)

Lemma prop_insert_eq (b : object) (f : string) (x : jsval) :
  prop (<[f := x]> b) f = x.
Proof. unfold prop. by rewrite lookup_insert_eq. Qed.

Lemma prop_insert_ne (b : object) (f k : string) (x : jsval) :
  k ≠ f → prop (<[f := x]> b) k = prop b k.
Proof. intros Hne. unfold prop. by rewrite lookup_insert_ne by congruence. Qed.

Lemma where_text_Some (v w : jsval) : where_text v = Some w → w = v.
Proof. destruct v; simpl; by intros [=]. Qed.

Lemma User_findOne_cpf_or_email_Some (st : Store) (cpf email : jsval)
    (found : option User.t) :
  User_findOne_cpf_or_email st cpf email = Some found →
  where_text cpf = Some cpf ∧ where_text email = Some email
  ∧ found = head (filter (λ u, User.cpf u = cpf ∨ User.email u = email) (Users st)).
Proof.
  unfold User_findOne_cpf_or_email.
  destruct (where_text cpf) as [c|] eqn:Hc; simpl; [|done].
  destruct (where_text email) as [e|] eqn:He; simpl; [|done].
  apply where_text_Some in Hc as Hc'. apply where_text_Some in He as He'. subst.
  by intros [= <-].
Qed.

Lemma User_findOne_email_None (st : Store) (email : string) :
  Forall (λ u, User.email u ≠ JStr email) (Users st) →
  User_findOne_email st (JStr email) = Some None.
Proof.
  intros Hnone. unfold User_findOne_email. simpl.
  f_equal. by apply head_filter_None, Forall_forall.
Qed.

(** C9, as the code has it. A login for an email that no user has and a
    login for the email of a user whose stored hash does not match the
    password both answer 400, with two different messages: the first says
    that the user was not found, the second that the password is wrong. In
    part_000 this is what happens once the two chains accept the body, the
    lookup being by the normalized email. *)
Theorem login_failures_told_apart (V : Validator) (B : Bcrypt) (J : Jsonwebtoken)
    (st : Store) (now : Z) (req : Request) (email password : string) :
  prop (body req) "email" = JStr email →
  prop (body req) "password" = JStr password →
  (Forall (λ u, User.email u ≠ JStr email) (Users st) →
   IndexJs.post_login st now req
   = (st, send 400 (Obj_error "error" "Usuário não encontrado.")))
  ∧ (∀ u, User_findOne_email st (JStr email) = Some (Some u) →
          bcrypt_compare password (User.password u) = false →
          IndexJs.post_login st now req
          = (st, send 400 (Obj_error "error" "Senha incorreta.")))
  ∧ (Part000.login_errors (body req) = [] →
     Forall (λ u, User.email u ≠ JStr (normalizeEmail email)) (Users st) →
     Part000.post_login st now req
     = (st, send 400 (Obj_error "erro" "Usuário não encontrado.")))
  ∧ (∀ u, Part000.login_errors (body req) = [] →
          User_findOne_email st (JStr (normalizeEmail email)) = Some (Some u) →
          bcrypt_compare password (User.password u) = false →
          Part000.post_login st now req
          = (st, send 400 (Obj_error "erro" "Senha incorreta.")))
  ∧ ∀ key, send 400 (Obj_error key "Usuário não encontrado.")
           ≠ send 400 (Obj_error key "Senha incorreta.").
Proof.
  intros Hemail Hpassword. repeat split.
  - intros Hnone. unfold IndexJs.post_login. rewrite Hemail.
    by rewrite User_findOne_email_None.
  - intros u Hfound Hmismatch. unfold IndexJs.post_login.
    rewrite Hemail, Hpassword, Hfound. simpl. by rewrite Hmismatch.
  - intros Hvalid Hnone. unfold Part000.post_login. rewrite Hvalid.
    rewrite decide_False by (by intros []).
    unfold Part000.login_sanitized. rewrite prop_insert_eq, Hemail.
    by rewrite User_findOne_email_None.
  - intros u Hvalid Hfound Hmismatch. unfold Part000.post_login. rewrite Hvalid.
    rewrite decide_False by (by intros []).
    unfold Part000.login_sanitized.
    rewrite prop_insert_eq, prop_insert_ne, Hemail, Hpassword by done.
    change (toString (JStr email)) with email.
    rewrite Hfound. simpl. by rewrite Hmismatch.
  - intros key [=].
Qed.

(** No user has nobody@example.com; user 1 has userone@example.com and
    another password. *)
Lemma login_failures_told_apart_witness :
  let st := Sample.two_users in
  @IndexJs.post_login Stub.bcrypt Stub.jsonwebtoken st 0
    (Sample.login_as "nobody@example.com" "wrongpass")
  = (st, send 400 (Obj_error "error" "Usuário não encontrado."))
  ∧ @IndexJs.post_login Stub.bcrypt Stub.jsonwebtoken st 0
      (Sample.login_as "userone@example.com" "wrongpass")
    = (st, send 400 (Obj_error "error" "Senha incorreta.")).
Proof.
  intros st. split.
  - refine (proj1 (login_failures_told_apart Stub.validator Stub.bcrypt
             Stub.jsonwebtoken st 0 _ "nobody@example.com" "wrongpass" _ _) _);
      [reflexivity|reflexivity|compute_done].
  - refine (proj1 (proj2 (login_failures_told_apart Stub.validator Stub.bcrypt
             Stub.jsonwebtoken st 0 _ "userone@example.com" "wrongpass" _ _))
             (Sample.user 1 "userone@example.com" "$2b$08$password") _ _);
      reflexivity.
Defined.

(** C9 as stated fails: the two failed logins get different answers, in
    both versions of the route. *)
Lemma login_failures_differ :
  let st := Sample.two_users in
  let missing := Sample.login_as "nobody@example.com" "wrongpass" in
  let mismatch := Sample.login_as "userone@example.com" "wrongpass" in
  (@IndexJs.post_login Stub.bcrypt Stub.jsonwebtoken st 0 missing).2
  ≠ (@IndexJs.post_login Stub.bcrypt Stub.jsonwebtoken st 0 mismatch).2
  ∧ (@Part000.post_login Stub.validator Stub.bcrypt Stub.jsonwebtoken st 0 missing).2
    ≠ (@Part000.post_login Stub.validator Stub.bcrypt Stub.jsonwebtoken st 0 mismatch).2.
Proof. split; by vm_compute. Qed.

(** ** Registration *)

Lemma elem_of_check (ok : bool) (f message field : string) :
  field ∈ path <$> check ok f message ↔ field = f ∧ ok = false.
Proof.
  destruct ok; simpl.
  - rewrite elem_of_nil. split; [done|by intros [_ ?]].
  - rewrite list_elem_of_singleton. split; [by intros ->|by intros [-> _]].
Qed.



Lemma isLength_min_false (n : nat) (s : string) :
  isLength n None s = false ↔ (characters s < n)%nat.
Proof.
  unfold isLength. rewrite andb_true_r, bool_decide_eq_false. lia.
Qed.






(** ** Tokens *)

Lemma count_ones (n : nat) (rest : string) :
  Stub.count (Stub.ones n (String "."%char rest)) = Some (n, rest).
Proof. induction n as [|n IH]; simpl; [done|]. by rewrite IH. Qed.

Lemma dec_enc (z : Z) (rest : string) : Stub.dec (Stub.enc z rest) = Some (z, rest).
Proof.
  unfold Stub.enc, Stub.dec. case_decide; rewrite count_ones; simpl; do 2 f_equal; lia.
Qed.

(** The stand-in meets the contract of jsonwebtoken. *)
Lemma stub_jwt_contract : jwt_contract Stub.jsonwebtoken.
Proof.
  split; intros id t later;
    change (jwt_verify (jwt_sign id ?e t) later)
      with (Stub.verify (Stub.sign id e t) later);
    unfold Stub.verify, Stub.sign;
    rewrite dec_enc; change (Some (id, ?s) ≫= ?f) with (f (id, s));
    cbv beta iota; rewrite dec_enc; done.
Qed.

(** The token of a successful answer is the one the route signed. *)
Lemma index_js_login_token (B : Bcrypt) (J : Jsonwebtoken)
    (st st' : Store) (now : Z) (req : Request) (u : User.t) (token : string) :
  IndexJs.post_login st now req = (st', send 200 (Obj_user_token u token)) →
  token = jwt_sign (User.id u) None now.
Proof.
  unfold IndexJs.post_login.
  destruct (User_findOne_email _ _) as [[user|]|]; simpl; try done.
  destruct (compare _ _) as [[|]|]; simpl; try done. by intros [= _ <- <-].
Qed.

Lemma part000_login_token (V : Validator) (B : Bcrypt) (J : Jsonwebtoken)
    (st st' : Store) (now : Z) (req : Request) (u : User.t) (token : string) :
  Part000.post_login st now req = (st', send 200 (Obj_user_token u token)) →
  token = jwt_sign (User.id u) (Some "1h") now.
Proof.
  unfold Part000.post_login. case_decide; [done|].
  destruct (User_findOne_email _ _) as [[user|]|]; simpl; try done.
  destruct (compare _ _) as [[|]|]; simpl; try done. by intros [= _ <- <-].
Qed.

Lemma index_js_usuario_token (B : Bcrypt) (J : Jsonwebtoken)
    (st st' : Store) (now : Z) (req : Request) (u : User.t) (token : string) :
  IndexJs.post_usuario st now req = (st', send 201 (Obj_user_token u token)) →
  token = jwt_sign (User.id u) None now.
Proof.
  unfold IndexJs.post_usuario.
  destruct (User_findOne_cpf_or_email _ _ _) as [[existing|]|]; simpl; try done.
  destruct (hash _ _) as [hashed|]; simpl; try done. by intros [= _ <- <-].
Qed.

Lemma part000_usuario_token (V : Validator) (B : Bcrypt) (J : Jsonwebtoken)
    (st st' : Store) (now : Z) (req : Request) (u : User.t) (token : string) :
  Part000.post_usuario st now req = (st', send 201 (Obj_user_token u token)) →
  token = jwt_sign (User.id u) None now.
Proof.
  unfold Part000.post_usuario. case_decide; [done|].
  destruct (User_findOne_cpf_or_email _ _ _) as [[existing|]|]; simpl; try done.
  destruct (hash _ _) as [hashed|]; simpl; try done. by intros [= _ <- <-].
Qed.

(** C7, as the code has it, for a jsonwebtoken that meets its contract. The
    token of a successful part_000 login carries the identifier of the
    user, the instant of the login and an expiry 3600 seconds later: it
    verifies at every instant before the expiry and at none from the expiry
    on. The token of a successful index.js login, and the token of a
    successful registration in either version, carries the identifier and
    no expiry: it verifies at every instant. *)
Theorem token_expiry (V : Validator) (B : Bcrypt) (J : Jsonwebtoken)
    (st st' : Store) (now : Z) (req : Request) (u : User.t) (token : string) :
  jwt_contract J →
  let unbound :=
    {| Claims.id := User.id u; Claims.iat := now; Claims.exp := None |} in
  let one_hour :=
    {| Claims.id := User.id u; Claims.iat := now; Claims.exp := Some (now + 3600) |} in
  (Part000.post_login st now req = (st', send 200 (Obj_user_token u token)) →
   ∀ later, jwt_verify token later
            = if decide (later < now + 3600) then Some one_hour else None)
  ∧ (IndexJs.post_login st now req = (st', send 200 (Obj_user_token u token)) →
     ∀ later, jwt_verify token later = Some unbound)
  ∧ (Part000.post_usuario st now req = (st', send 201 (Obj_user_token u token)) →
     ∀ later, jwt_verify token later = Some unbound)
  ∧ (IndexJs.post_usuario st now req = (st', send 201 (Obj_user_token u token)) →
     ∀ later, jwt_verify token later = Some unbound).
Proof.
  intros [Hunbound Hhour] unbound one_hour. repeat split.
  - intros ->%part000_login_token later. apply Hhour.
  - intros ->%index_js_login_token later. apply Hunbound.
  - intros ->%part000_usuario_token later. apply Hunbound.
  - intros ->%index_js_usuario_token later. apply Hunbound.
Qed.

(** User 1 logs in through part_000 at the instant 1000: the token
    verifies at 4599 and no longer at 4600. *)
Lemma token_expiry_witness :
  let st := Sample.two_users in
  let u := Sample.user 1 "userone@example.com" "$2b$08$password" in
  let token := Stub.sign 1 (Some "1h") 1000 in
  @Part000.post_login Stub.validator Stub.bcrypt Stub.jsonwebtoken st 1000
    (Sample.login_as "userone@example.com" "password")
  = (st, send 200 (Obj_user_token u token))
  ∧ Stub.verify token 4599
    = Some {| Claims.id := 1; Claims.iat := 1000; Claims.exp := Some 4600 |}
  ∧ Stub.verify token 4600 = None.
Proof.
  intros st u token.
  assert (Hlogin :
    @Part000.post_login Stub.validator Stub.bcrypt Stub.jsonwebtoken st 1000
      (Sample.login_as "userone@example.com" "password")
    = (st, send 200 (Obj_user_token u token))) by (vm_compute; reflexivity).
  destruct (token_expiry Stub.validator Stub.bcrypt Stub.jsonwebtoken st st 1000
              (Sample.login_as "userone@example.com" "password") u token
              stub_jwt_contract) as (A & _).
  split; [exact Hlogin|]. split; [exact (A Hlogin 4599)|exact (A Hlogin 4600)].
Defined.

(** C7 as stated fails for the index.js login: its token has no expiry, so
    it is not true of every jsonwebtoken meeting the contract that the token
    of a successful login stops verifying an hour later. *)
Lemma index_js_login_token_outlives_hour :
  ¬ ∀ (B : Bcrypt) (J : Jsonwebtoken), jwt_contract J →
      ∀ st now req st' u token,
        IndexJs.post_login st now req = (st', send 200 (Obj_user_token u token)) →
        ∀ later, now + 3600 ≤ later → jwt_verify token later = None.
Proof.
  intros Hclaim.
  specialize (Hclaim Stub.bcrypt Stub.jsonwebtoken stub_jwt_contract
    Sample.two_users 1000 (Sample.login_as "userone@example.com" "password")
    Sample.two_users (Sample.user 1 "userone@example.com" "$2b$08$password")
    (Stub.sign 1 None 1000)).
  specialize (Hclaim ltac:(vm_compute; reflexivity) 36000 ltac:(lia)).
  by vm_compute in Hclaim.
Qed.

(** ** Registration followed by login *)

(** C5, at a password of six characters, for any validator that accepts
    the email and the date of Maria: the part_000 registration answers 201
    and stores the user; the part_000 login with the same email and
    password is then refused by its own chain, which asks for eight
    characters, and no token is issued. *)
Theorem login_rejects_registered_password (V : Validator) (B : Bcrypt)
    (J : Jsonwebtoken) (now later : Z) :
  isEmail "maria@example.com" = true →
  isISO8601 "1985-07-15" = true →
  let registration :=
    Part000.post_usuario Sample.empty_store now (Sample.register_maria "abc123") in
  status registration.2 = 201
  ∧ User.email <$> Users registration.1 = [JStr "maria@example.com"]
  ∧ Part000.post_login registration.1 later
      (Sample.login_as "maria@example.com" "abc123")
    = (registration.1,
       send 400 (Obj_errors [{| path := "password"; msg := "Invalid value" |}])).
Proof.
  destruct V as [isEmail' isISO8601' toDate' normalizeEmail' trim' escape'].
  destruct B as [hash' compare']. destruct J as [sign' verify'].
  cbn [isEmail isISO8601]. intros Hemail Hdate.
  vm_compute. rewrite Hemail, Hdate. by vm_compute.
Qed.

Lemma login_rejects_registered_password_witness :
  let registration :=
    @Part000.post_usuario Stub.validator Stub.bcrypt Stub.jsonwebtoken
      Sample.empty_store 0 (Sample.register_maria "abc123") in
  status registration.2 = 201
  ∧ status (@Part000.post_login Stub.validator Stub.bcrypt Stub.jsonwebtoken
              registration.1 5 (Sample.login_as "maria@example.com" "abc123")).2
    = 400.
Proof.
  intros registration.
  destruct (login_rejects_registered_password Stub.validator Stub.bcrypt
              Stub.jsonwebtoken 0 5 eq_refl eq_refl) as (A & _ & C).
  split; [exact A|]. unfold registration. rewrite C. reflexivity.
Defined.

(** The index.js routes have no chain: there a successful registration is
    followed by a successful login with the same body, for a bcrypt whose
    [compare] accepts what [hash] produced and a jsonwebtoken that meets
    its contract; the token verifies and carries the identifier of the
    user. *)
Lemma index_js_register_then_login (B : Bcrypt) (J : Jsonwebtoken)
    (st st1 : Store) (now later : Z) (req : Request) (u : User.t) (token : string) :
  (∀ data rounds, bcrypt_compare data (bcrypt_hash data rounds) = true) →
  jwt_contract J →
  IndexJs.post_usuario st now req = (st1, send 201 (Obj_user_token u token)) →
  ∃ token',
    IndexJs.post_login st1 later req = (st1, send 200 (Obj_user_token u token'))
    ∧ ∀ t, jwt_verify token' t
           = Some {| Claims.id := User.id u; Claims.iat := later; Claims.exp := None |}.
Proof.
  intros Hbcrypt [Hunbound _]. unfold IndexJs.post_usuario, IndexJs.post_login.
  destruct (User_findOne_cpf_or_email st _ _) as [found|] eqn:Hquery; simpl; [|done].
  apply User_findOne_cpf_or_email_Some in Hquery as (_ & Hwhere & ->).
  destruct (head (filter _ (Users st))) as [existing|] eqn:Hnone; simpl; [done|].
  destruct (prop (body req) "password") as [| |password|]; simpl; try done.
  intros [= <- <- <-]. unfold User_findOne_email. rewrite Hwhere. simpl.
  rewrite filter_app.
  assert (Hold : filter (λ u, User.email u = prop (body req) "email") (Users st) = []).
  { apply head_None, head_filter_None. intros x Hx Hemail.
    apply (proj1 (head_filter_None _ _) Hnone x Hx). by right. }
  rewrite Hold. simpl. rewrite filter_cons, decide_True by done. simpl.
  rewrite Hbcrypt. eexists. split; [done|]. intros t. apply Hunbound.
Qed.

(** ** What a request can do to the store *)

Lemma behind_auth_effect (J : Jsonwebtoken)
    (handler : Store → Claims.t → Request → Store * Response)
    (st : Store) (now : Z) (req : Request) :
  (∀ user, effect (Some (Claims.id user)) st (handler st user req).1) →
  effect (caller_of now req) st (behind_auth handler st now req).1.
Proof.
  intros Hhandler. unfold behind_auth, caller_of.
  destruct (auth now req) as [user|r|e]; [apply Hhandler|constructor|constructor].
Qed.

Lemma User_create_effect (caller : option Z) (st : Store)
    (name gender cpf address email : jsval) (password : string) (birthdate : jsval) :
  head (filter (λ u, User.cpf u = cpf ∨ User.email u = email) (Users st)) = None →
  ∀ st' user,
    User_create st name gender cpf address email password birthdate = Some (st', user) →
    effect caller st st'.
Proof.
  intros Hnone st' user [= <- <-]. apply effect_user_created; [done|].
  apply Forall_forall. intros u Hu. simpl.
  pose proof (proj1 (head_filter_None _ _) Hnone u Hu). tauto.
Qed.

Lemma index_js_post_usuario_effect (B : Bcrypt) (J : Jsonwebtoken)
    (caller : option Z) (st : Store) (now : Z) (req : Request) :
  effect caller st (IndexJs.post_usuario st now req).1.
Proof.
  unfold IndexJs.post_usuario.
  destruct (User_findOne_cpf_or_email st _ _) as [found|] eqn:Hquery; simpl;
    [|constructor].
  apply User_findOne_cpf_or_email_Some in Hquery as (_ & _ & ->).
  destruct (head (filter _ (Users st))) as [existing|] eqn:Hnone; simpl; [constructor|].
  destruct (hash _ _) as [hashed|]; simpl; [|constructor].
  by eapply User_create_effect.
Qed.

Lemma part000_post_usuario_effect (V : Validator) (B : Bcrypt) (J : Jsonwebtoken)
    (caller : option Z) (st : Store) (now : Z) (req : Request) :
  effect caller st (Part000.post_usuario st now req).1.
Proof.
  unfold Part000.post_usuario.
  case_decide; [constructor|].
  destruct (User_findOne_cpf_or_email st _ _) as [found|] eqn:Hquery; simpl;
    [|constructor].
  apply User_findOne_cpf_or_email_Some in Hquery as (_ & _ & ->).
  destruct (head (filter _ (Users st))) as [existing|] eqn:Hnone; simpl; [constructor|].
  destruct (hash _ _) as [hashed|]; simpl; [|constructor].
  by eapply User_create_effect.
Qed.

Lemma Location_create_effect (st st' : Store)
    (name description address coordinates : jsval) (userId : Z) (l : Location.t) :
  Location_create st name description address coordinates userId = Some (st', l) →
  effect (Some userId) st st'.
Proof.
  unfold Location_create. destruct (_ || _); [done|].
  destruct (STRING name); simpl; [|done].
  destruct (STRING description); simpl; [|done].
  destruct (STRING address); simpl; [|done].
  destruct (STRING coordinates); simpl; [|done].
  intros [= <- <-]. by eapply effect_location_created.
Qed.

Lemma Location_save_effect (st st' : Store) (id userId : Z) (l : Location.t)
    (updates : object) :
  Location_findOne st id userId = Some l →
  Location_save st l (map_fold Location.set l updates) = Some st' →
  effect (Some userId) st st'.
Proof.
  intros Hfind. unfold Location_save. case_decide; [|done].
  destruct (Location_update _ _) as [row|] eqn:Hrow; simpl; [|done]. intros [= <-].
  destruct (Location_findOne_Some _ _ _ _ Hfind) as (_ & <- & _).
  apply Location_update_id in Hrow as [Hid _].
  eapply effect_location_saved; [done|done|]. by rewrite Hid, assign_all_id.
Qed.

Lemma delete_usuario_effect (st : Store) (userId id : Z) :
  effect (Some userId) st
    match User_findByPk st id with
    | None => st
    | Some target =>
      if decide (0 < length (Location_findAll st id))%nat then st
      else User_destroy st target
    end.
Proof.
  destruct (User_findByPk st id) as [target|] eqn:Hfind; [|constructor].
  case_decide as Hlen; [constructor|].
  apply head_filter_Some in Hfind as Hid. destruct Hid as [_ Hid].
  eapply effect_user_destroyed; [done| |].
  - by rewrite Hid.
  - rewrite Hid. destruct (Location_findAll st id); [done|]. simpl in Hlen. lia.
Qed.

Lemma index_js_handler_effect (X : Axios) (route : Route)
    (st : Store) (user : Claims.t) (req : Request) :
  effect (Some (Claims.id user)) st
    (match route with
     | POST_local => IndexJs.post_local st user req
     | GET_local => IndexJs.get_local st user req
     | GET_local_id => IndexJs.get_local_id st user req
     | PUT_local_id => IndexJs.put_local_id st user req
     | DELETE_local_id => IndexJs.delete_local_id st user req
     | GET_local_id_maps => IndexJs.get_local_id_maps st user req
     | _ => IndexJs.delete_usuario_id st user req
     end).1.
Proof.
  destruct route.
  7: { unfold IndexJs.delete_local_id.
       destruct (Location_findOne _ _ _) as [l|] eqn:Hfind; [|constructor].
       destruct (Location_findOne_Some _ _ _ _ Hfind) as (_ & Hid & _).
       rewrite <-Hid in Hfind. by eapply effect_location_destroyed. }
  3: { unfold IndexJs.post_local.
       destruct (Location_create _ _ _ _ _ _) as [[st' l]|] eqn:Hcreate; simpl;
         [by eapply Location_create_effect|constructor]. }
  3: constructor.
  3: { unfold IndexJs.get_local_id. destruct (Location_findOne _ _ _); constructor. }
  3: { unfold IndexJs.put_local_id.
       destruct (Location_findOne _ _ _) as [l|] eqn:Hfind; simpl; [|constructor].
       destruct (Location_save _ _ _) as [st'|] eqn:Hsave; simpl;
         [by eapply Location_save_effect|constructor]. }
  3: { unfold IndexJs.get_local_id_maps.
       destruct (Location_findOne _ _ _); simpl; [|constructor].
       destruct (axios_get _) as [[|[lat lon] data]|]; constructor. }
  all: unfold IndexJs.delete_usuario_id;
    pose proof (delete_usuario_effect st (Claims.id user) (params req)) as Heffect;
    destruct (User_findByPk _ _); [|done]; by case_decide.
Qed.

Lemma part000_handler_effect (V : Validator) (X : Axios) (route : Route)
    (st : Store) (user : Claims.t) (req : Request) :
  effect (Some (Claims.id user)) st
    (match route with
     | POST_local => Part000.post_local st user req
     | GET_local => Part000.get_local st user req
     | GET_local_id => Part000.get_local_id st user req
     | PUT_local_id => Part000.put_local_id st user req
     | DELETE_local_id => Part000.delete_local_id st user req
     | GET_local_id_maps => Part000.get_local_id_maps st user req
     | _ => Part000.delete_usuario_id st user req
     end).1.
Proof.
  destruct route.
  7: { unfold Part000.delete_local_id.
       destruct (Location_findOne _ _ _) as [l|] eqn:Hfind; [|constructor].
       destruct (Location_findOne_Some _ _ _ _ Hfind) as (_ & Hid & _).
       rewrite <-Hid in Hfind. by eapply effect_location_destroyed. }
  3: { unfold Part000.post_local. case_decide; [constructor|].
       destruct (Location_create _ _ _ _ _ _) as [[st' l]|] eqn:Hcreate; simpl;
         [by eapply Location_create_effect|constructor]. }
  3: constructor.
  3: { unfold Part000.get_local_id. destruct (Location_findOne _ _ _); constructor. }
  3: { unfold Part000.put_local_id.
       destruct (Location_findOne _ _ _) as [l|] eqn:Hfind; simpl; [|constructor].
       destruct (Location_save _ _ _) as [st'|] eqn:Hsave; simpl;
         [by eapply Location_save_effect|constructor]. }
  3: { unfold Part000.get_local_id_maps.
       destruct (Location_findOne _ _ _); simpl; [|constructor].
       destruct (axios_get _) as [[|[lat lon] data]|]; constructor. }
  all: unfold Part000.delete_usuario_id;
    pose proof (delete_usuario_effect st (Claims.id user) (params req)) as Heffect;
    destruct (User_findByPk _ _); [|done]; by case_decide.
Qed.

Lemma login_keeps_store (V : Validator) (B : Bcrypt) (J : Jsonwebtoken)
    (st : Store) (now : Z) (req : Request) :
  (IndexJs.post_login st now req).1 = st ∧ (Part000.post_login st now req).1 = st.
Proof.
  unfold IndexJs.post_login, Part000.post_login. split.
  - destruct (User_findOne_email _ _) as [[user|]|]; simpl; try done.
    by destruct (compare _ _) as [[|]|].
  - case_decide; [done|].
    destruct (User_findOne_email _ _) as [[user|]|]; simpl; try done.
    by destruct (compare _ _) as [[|]|].
Qed.

(** Every route of either table acts on the store by one of the effects. *)
Lemma route_effect (V : Validator) (B : Bcrypt) (J : Jsonwebtoken) (X : Axios)
    (route : Route) (st : Store) (now : Z) (req : Request) :
  effect (caller_of now req) st (index_js route st now req).1
  ∧ effect (caller_of now req) st (part_000 route st now req).1.
Proof.
  destruct (login_keeps_store V B J st now req) as [Hi Hp].
  destruct route; simpl; (split;
    [ first [ apply index_js_post_usuario_effect
            | rewrite Hi; constructor
            | apply behind_auth_effect; intros user ]
    | first [ apply part000_post_usuario_effect
            | rewrite Hp; constructor
            | apply behind_auth_effect; intros user ] ]).
  all: first
    [ apply (index_js_handler_effect X POST_local)
    | apply (index_js_handler_effect X GET_local)
    | apply (index_js_handler_effect X GET_local_id)
    | apply (index_js_handler_effect X PUT_local_id)
    | apply (index_js_handler_effect X DELETE_local_id)
    | apply (index_js_handler_effect X GET_local_id_maps)
    | apply (index_js_handler_effect X DELETE_usuario_id)
    | apply (part000_handler_effect V X POST_local)
    | apply (part000_handler_effect V X GET_local)
    | apply (part000_handler_effect V X GET_local_id)
    | apply (part000_handler_effect V X PUT_local_id)
    | apply (part000_handler_effect V X DELETE_local_id)
    | apply (part000_handler_effect V X GET_local_id_maps)
    | apply (part000_handler_effect V X DELETE_usuario_id) ].
Qed.

(** ** Invariants along the effects *)

Section projections.
Context {A B : Type} (f : A → B).

Lemma NoDup_fmap_filter (P : A → Prop) `{!∀ x, Decision (P x)} (l : list A) :
  NoDup (f <$> l) → NoDup (f <$> filter P l).
Proof.
  induction l as [|x l IH]; [done|]. rewrite fmap_cons, NoDup_cons.
  intros [Hx Hl]. rewrite filter_cons. case_decide; [|by apply IH].
  rewrite fmap_cons, NoDup_cons. split; [|by apply IH].
  rewrite list_elem_of_fmap. intros (y & Hy & Hin%list_elem_of_filter).
  apply Hx, list_elem_of_fmap. exists y. tauto.
Qed.

Lemma NoDup_fmap_snoc (l : list A) (x : A) :
  NoDup (f <$> l) → Forall (λ y, f y ≠ f x) l → NoDup (f <$> l ++ [x]).
Proof.
  intros Hl Hx. rewrite fmap_app, NoDup_app. split; [done|]. split.
  - intros b (y & -> & Hy)%list_elem_of_fmap. simpl. rewrite list_elem_of_singleton.
    by apply (proj1 (Forall_forall _ _) Hx).
  - apply NoDup_singleton.
Qed.


End projections.




Lemma effect_credentials_unique (caller : option Z) (st st' : Store) :
  effect caller st st' → credentials_unique st → credentials_unique st'.
Proof.
  intros Heffect [Hcpf Hemail].
  destruct Heffect as [|user _ Hfresh| | | |]; unfold credentials_unique; simpl;
    try done.
  - split; (apply NoDup_fmap_snoc; [done|]);
      (eapply Forall_impl; [exact Hfresh|]); simpl; tauto.
  - split; by apply NoDup_fmap_filter.
Qed.


(** ** Invariants of the two route tables *)



(** X2. Unique credentials. Whatever the route and the request, if no two
    users share their cpf and no two users share their email before the
    request, the same holds after it. *)
Theorem routes_keep_credentials_unique (V : Validator) (B : Bcrypt)
    (J : Jsonwebtoken) (X : Axios)
    (route : Route) (st : Store) (now : Z) (req : Request) :
  credentials_unique st →
  credentials_unique (index_js route st now req).1
  ∧ credentials_unique (part_000 route st now req).1.
Proof.
  intros Hok. destruct (route_effect V B J X route st now req) as [Hi Hp].
  split; by eapply effect_credentials_unique.
Qed.

Lemma routes_keep_credentials_unique_witness :
  credentials_unique Sample.two_users
  ∧ credentials_unique
      (Scenario.index_js POST_usuario Sample.two_users 5
         (Sample.register_maria "senha123")).1.
Proof.
  assert (Hok : credentials_unique Sample.two_users)
    by (unfold credentials_unique; compute_done).
  split; [exact Hok|].
  exact (proj1 (routes_keep_credentials_unique Stub.validator Stub.bcrypt
                  Stub.jsonwebtoken Stub.axios POST_usuario Sample.two_users 5 _ Hok)).
Defined.



(** X4. Without a verified token. When [auth] does not verify the request,
    every route other than the registration returns the store it was given,
    and every route behind [auth] answers with one of the three rejections
    of the middleware: 401 for an empty token, 400 for a token that does not
    verify, or the 500 of the framework when the header is missing. *)
Theorem unverified_request_changes_nothing (V : Validator) (B : Bcrypt)
    (J : Jsonwebtoken) (X : Axios)
    (route : Route) (st : Store) (now : Z) (req : Request) :
  caller_of now req = None →
  route ≠ POST_usuario →
  (index_js route st now req).1 = st
  ∧ (part_000 route st now req).1 = st
  ∧ (route ≠ POST_login →
     index_js route st now req = part_000 route st now req
     ∧ (index_js route st now req).2
       ∈ [send 401 (Obj_error "erro" "Acesso negado. Nenhum token fornecido.");
          send 400 (Obj_error "erro" "Token inválido.");
          send 500 Express_error]).
Proof.
  intros Hcaller Hroute. unfold caller_of in Hcaller.
  destruct (login_keeps_store V B J st now req) as [Hi Hp].
  destruct route; try done; simpl; unfold behind_auth;
    try (split; [done|]; split; [done|]; by intros []);
    unfold auth in *; destruct (Authorization req) as [header|];
    repeat case_decide; try destruct (jwt_verify _ _); try done;
    (split; [done|]; split; [done|]; intros _; split; [done|]); simpl;
    rewrite !elem_of_cons; tauto.
Qed.

(** A token that does not verify on the delete route of a user. *)
Lemma unverified_request_changes_nothing_witness :
  Scenario.index_js DELETE_usuario_id Sample.two_users 5
    {| Authorization := Some "Bearer forged"; params := 2; body := ∅ |}
  = (Sample.two_users, send 400 (Obj_error "erro" "Token inválido.")).
Proof.
  destruct (unverified_request_changes_nothing Stub.validator Stub.bcrypt
              Stub.jsonwebtoken Stub.axios DELETE_usuario_id Sample.two_users 5
              {| Authorization := Some "Bearer forged"; params := 2; body := ∅ |})
    as (Hstore & _ & _); [reflexivity|discriminate|].
  apply injective_projections; [exact Hstore|reflexivity].
Defined.

(** ** The header of a request *)

Lemma replace_unfold (pat rep s : string) :
  replace pat rep s
  = if String.prefix pat s
    then rep +:+ String.substring (String.length pat)
                   (String.length s - String.length pat) s
    else match s with
         | EmptyString => EmptyString
         | String c s' => String c (replace pat rep s')
         end.
Proof. by destruct s. Qed.

Lemma prefix_app (pat s : string) : String.prefix pat (pat +:+ s) = true.
Proof.
  induction pat as [|c pat IH]; simpl; [by destruct s|].
  by destruct (Ascii.ascii_dec c c).
Qed.

Lemma prefix_split (pat s : string) :
  String.prefix pat s = true → ∃ rest, s = pat +:+ rest.
Proof.
  revert s. induction pat as [|c pat IH]; intros s; [by exists s|].
  destruct s as [|d s]; simpl; [done|].
  destruct (Ascii.ascii_dec c d) as [->|]; [|done].
  intros [rest ->]%IH. by exists rest.
Qed.

Lemma substring_all (s : string) : String.substring 0 (String.length s) s = s.
Proof. induction s as [|c s IH]; simpl; [done|]. by rewrite IH. Qed.

Lemma substring_after (pat s : string) :
  String.substring (String.length pat)
    (String.length (pat +:+ s) - String.length pat) (pat +:+ s) = s.
Proof.
  induction pat as [|c pat IH]; simpl.
  - rewrite Nat.sub_0_r. apply substring_all.
  - apply IH.
Qed.

(** Removing a leading occurrence of the pattern. *)
Lemma replace_prefix (pat rep s : string) :
  replace pat rep (pat +:+ s) = rep +:+ s.
Proof. by rewrite replace_unfold, prefix_app, substring_after. Qed.

Lemma app_empty_r (s : string) : s +:+ EmptyString = s.
Proof. induction s as [|c s IH]; [done|]. exact (f_equal (String c) IH). Qed.

(** The result is empty, for an empty replacement, only on the empty string
    and on the pattern itself. *)
Lemma replace_empty (pat s : string) :
  replace pat EmptyString s = EmptyString ↔ s = EmptyString ∨ s = pat.
Proof.
  split.
  - rewrite replace_unfold. destruct (String.prefix pat s) eqn:Hprefix.
    + apply prefix_split in Hprefix as [rest ->]. rewrite substring_after.
      change (EmptyString +:+ rest) with rest. intros ->. right. apply app_empty_r.
    + destruct s; [by left|done].
  - intros [-> | ->].
    + rewrite replace_unfold. by destruct pat.
    + pose proof (replace_prefix pat EmptyString EmptyString) as Hpat.
      by rewrite app_empty_r in Hpat.
Qed.

(** X5. A header made of "Bearer " and a non-empty token: [auth] verifies
    exactly that token; the decoded payload becomes [req.user], and a token
    that does not verify is answered with 400. *)
Theorem auth_bearer (J : Jsonwebtoken) (now : Z) (req : Request) (token : string) :
  Authorization req = Some ("Bearer " +:+ token) →
  token ≠ EmptyString →
  auth now req
  = match jwt_verify token now with
    | Some decoded => Next decoded
    | None => Sent (send 400 (Obj_error "erro" "Token inválido."))
    end.
Proof.
  intros Hheader Htoken. unfold auth. rewrite Hheader, replace_prefix.
  change (EmptyString +:+ token) with token. by rewrite decide_False.
Qed.

Lemma auth_bearer_witness :
  @auth Stub.jsonwebtoken 5 (Scenario.bearer 2 [] 1)
  = Next {| Claims.id := 2; Claims.iat := 0; Claims.exp := None |}.
Proof.
  rewrite (auth_bearer Stub.jsonwebtoken 5 (Scenario.bearer 2 [] 1)
             (Stub.sign 2 None 0)); [reflexivity|reflexivity|discriminate].
Defined.

(** X6. [auth] answers 401 exactly on two headers: the empty one and the
    bare "Bearer " with nothing after it. Any other header that is present
    goes to the verification of the token. *)
Theorem auth_unauthorized_iff (J : Jsonwebtoken) (now : Z) (req : Request) :
  auth now req
  = Sent (send 401 (Obj_error "erro" "Acesso negado. Nenhum token fornecido."))
  ↔ Authorization req = Some EmptyString ∨ Authorization req = Some "Bearer ".
Proof.
  unfold auth. destruct (Authorization req) as [header|]; [|split; [done|by intros [|]]].
  pose proof (replace_empty "Bearer " header) as Hempty.
  case_decide as Htoken.
  - apply Hempty in Htoken. split; [|done].
    intros _. destruct Htoken as [-> | ->]; tauto.
  - split; [by destruct (jwt_verify _ _)|].
    intros [[= ->]|[= ->]]; destruct Htoken; apply Hempty; tauto.
Qed.

(** X7. From the issue of a token to its use, for a jsonwebtoken that
    meets its contract and a token that is not the empty string. The token
    of a successful part_000 login, sent back as "Bearer " followed by the
    token, makes [auth] set [req.user] to the identifier of that user at
    every instant before one hour has passed, and is answered 400 from then
    on. The token of a successful index.js login, and of a successful
    registration in either file, is accepted at every instant. *)
Theorem issued_token_passes_auth (V : Validator) (B : Bcrypt) (J : Jsonwebtoken)
    (st st' : Store) (now later : Z) (req req' : Request) (u : User.t)
    (token : string) :
  jwt_contract J →
  token ≠ EmptyString →
  Authorization req' = Some ("Bearer " +:+ token) →
  let unbound :=
    {| Claims.id := User.id u; Claims.iat := now; Claims.exp := None |} in
  let one_hour :=
    {| Claims.id := User.id u; Claims.iat := now; Claims.exp := Some (now + 3600) |} in
  (Part000.post_login st now req = (st', send 200 (Obj_user_token u token)) →
   auth later req'
   = if decide (later < now + 3600) then Next one_hour
     else Sent (send 400 (Obj_error "erro" "Token inválido.")))
  ∧ (IndexJs.post_login st now req = (st', send 200 (Obj_user_token u token)) →
     auth later req' = Next unbound)
  ∧ (Part000.post_usuario st now req = (st', send 201 (Obj_user_token u token)) →
     auth later req' = Next unbound)
  ∧ (IndexJs.post_usuario st now req = (st', send 201 (Obj_user_token u token)) →
     auth later req' = Next unbound).
Proof.
  intros [Hunbound Hhour] Htoken Hheader unbound one_hour.
  assert (Hauth : auth later req'
                  = match jwt_verify token later with
                    | Some decoded => Next decoded
                    | None => Sent (send 400 (Obj_error "erro" "Token inválido."))
                    end).
  { unfold auth. rewrite Hheader, replace_prefix.
    change (EmptyString +:+ token) with token. by rewrite decide_False. }
  rewrite Hauth. repeat split.
  - intros Hissued%part000_login_token. rewrite Hissued, Hhour. by case_decide.
  - intros Hissued%index_js_login_token. by rewrite Hissued, Hunbound.
  - intros Hissued%part000_usuario_token. by rewrite Hissued, Hunbound.
  - intros Hissued%index_js_usuario_token. by rewrite Hissued, Hunbound.
Qed.

(** User 1 logs in through part_000 at the instant 1000 and lists the
    locations with the token: accepted at 4599, refused at 4600. *)
Lemma issued_token_passes_auth_witness :
  let token := Stub.sign 1 (Some "1h") 1000 in
  let req' := {| Authorization := Some ("Bearer " +:+ token); params := 0; body := ∅ |} in
  @auth Stub.jsonwebtoken 4599 req'
  = Next {| Claims.id := 1; Claims.iat := 1000; Claims.exp := Some 4600 |}
  ∧ @auth Stub.jsonwebtoken 4600 req'
    = Sent (send 400 (Obj_error "erro" "Token inválido.")).
Proof.
  intros token req'.
  assert (Hlogin :
    @Part000.post_login Stub.validator Stub.bcrypt Stub.jsonwebtoken
      Sample.two_users 1000 (Sample.login_as "userone@example.com" "password")
    = (Sample.two_users,
       send 200 (Obj_user_token
                   (Sample.user 1 "userone@example.com" "$2b$08$password") token)))
    by (vm_compute; reflexivity).
  split.
  - refine (proj1 (issued_token_passes_auth Stub.validator Stub.bcrypt
              Stub.jsonwebtoken _ _ 1000 4599 _ req' _ token stub_jwt_contract _ _)
              Hlogin); [discriminate|reflexivity].
  - refine (proj1 (issued_token_passes_auth Stub.validator Stub.bcrypt
              Stub.jsonwebtoken _ _ 1000 4600 _ req' _ token stub_jwt_contract _ _)
              Hlogin); [discriminate|reflexivity].
Defined.

(** ** The life of a location *)

Lemma Location_created (st st' : Store)
    (name description address coordinates : jsval) (userId : Z) (l : Location.t) :
  Location_create st name description address coordinates userId = Some (st', l) →
  st' = with_Locations st (Locations st ++ [l]) (Locations_id_seq st + 1)
  ∧ Location.id l = Locations_id_seq st
  ∧ Location.userId l = JNum userId.
Proof.
  unfold Location_create. destruct (_ || _); [done|].
  destruct (STRING name); simpl; [|done].
  destruct (STRING description); simpl; [|done].
  destruct (STRING address); simpl; [|done].
  destruct (STRING coordinates); simpl; [|done].
  by intros [= <- <-].
Qed.

Lemma index_js_post_local_created (st st' : Store) (user : Claims.t) (req : Request)
    (l : Location.t) :
  IndexJs.post_local st user req = (st', send 201 (Obj_location l)) →
  st' = with_Locations st (Locations st ++ [l]) (Locations_id_seq st + 1)
  ∧ Location.id l = Locations_id_seq st
  ∧ Location.userId l = JNum (Claims.id user).
Proof.
  unfold IndexJs.post_local.
  destruct (Location_create _ _ _ _ _ _) as [[st1 l1]|] eqn:Hcreate; simpl; [|done].
  intros [= <- <-]. by eapply Location_created.
Qed.

Lemma part000_post_local_created (V : Validator) (st st' : Store) (user : Claims.t)
    (req : Request) (l : Location.t) :
  Part000.post_local st user req = (st', send 201 (Obj_location l)) →
  st' = with_Locations st (Locations st ++ [l]) (Locations_id_seq st + 1)
  ∧ Location.id l = Locations_id_seq st
  ∧ Location.userId l = JNum (Claims.id user).
Proof.
  unfold Part000.post_local. case_decide; [done|].
  destruct (Location_create _ _ _ _ _ _) as [[st1 l1]|] eqn:Hcreate; simpl; [|done].
  intros [= <- <-]. by eapply Location_created.
Qed.

(** A row appended under the next value of the serial, seen by the queries
    of the routes. *)
Lemma appended_location (st : Store) (l : Location.t) (userId : Z) :
  keys_ok st →
  Location.id l = Locations_id_seq st →
  Location.userId l = JNum userId →
  let st' := with_Locations st (Locations st ++ [l]) (Locations_id_seq st + 1) in
  Location_findAll st' userId = Location_findAll st userId ++ [l]
  ∧ (∀ other, other ≠ userId → Location_findAll st' other = Location_findAll st other)
  ∧ Location_findOne st' (Location.id l) userId = Some l
  ∧ (∀ other, other ≠ userId → Location_findOne st' (Location.id l) other = None).
Proof.
  intros (_ & Hseq & _) Hid Hown st'.
  assert (Hold : ∀ uid, filter (λ row, Location.id row = Location.id l
                                       ∧ Location.userId row = JNum uid)
                          (Locations st) = []).
  { intros uid. apply head_None, head_filter_None. intros row Hrow [Hsame _].
    apply (proj1 (Forall_forall _ _) Hseq) in Hrow. lia. }
  unfold Location_findAll, Location_findOne, st'. simpl.
  repeat split.
  - by rewrite filter_app, (filter_cons _ l), decide_True.
  - intros other Hother.
    rewrite filter_app, (filter_cons _ l), decide_False, app_nil_r; [done|].
    rewrite Hown. by intros [=].
  - by rewrite filter_app, Hold, (filter_cons _ l), decide_True.
  - intros other Hother.
    rewrite filter_app, Hold, (filter_cons _ l), decide_False; [done|].
    rewrite Hown. by intros [_ [=]].
Qed.

(** X8. A location just created, with primary keys in order before the
    request: the list of its owner holds the locations of before and the
    new one, and the owner gets it back by its id; the list of any other
    user (of an identifier within the range of the keys) holds the
    locations of before, and any other user asking for that id gets the
    404. The lists are compared as bags: the query of the list route asks
    for no order. Both files. *)
Theorem created_location_belongs_to_caller (V : Validator)
    (st st' : Store) (user other : Claims.t) (req listing : Request) (l : Location.t) :
  keys_ok st →
  int32 (Claims.id other) →
  Claims.id other ≠ Claims.id user →
  IndexJs.post_local st user req = (st', send 201 (Obj_location l))
  ∨ Part000.post_local st user req = (st', send 201 (Obj_location l)) →
  let by_id := {| Authorization := Authorization listing;
                  params := Location.id l; body := body listing |} in
  (∃ listed,
     IndexJs.get_local st' user listing = (st', send 200 (Arr_locations listed))
     ∧ listed ≡ₚ l :: Location_findAll st (Claims.id user))
  ∧ (∃ listed,
       IndexJs.get_local st' other listing = (st', send 200 (Arr_locations listed))
       ∧ listed ≡ₚ Location_findAll st (Claims.id other))
  ∧ IndexJs.get_local_id st' user by_id = (st', send 200 (Obj_location l))
  ∧ Part000.get_local_id st' user by_id = (st', send 200 (Obj_location l))
  ∧ IndexJs.get_local_id st' other by_id
    = (st', send 404 (Obj_error "error" "Local não encontrado."))
  ∧ Part000.get_local_id st' other by_id
    = (st', send 404 (Obj_error "erro" "Local não encontrado.")).
Proof.
  intros Hok _ Hother Hcreated by_id.
  assert (Hfacts : st' = with_Locations st (Locations st ++ [l]) (Locations_id_seq st + 1)
                   ∧ Location.id l = Locations_id_seq st
                   ∧ Location.userId l = JNum (Claims.id user)).
  { destruct Hcreated as [Hi|Hp];
      [by apply index_js_post_local_created in Hi
      |by apply part000_post_local_created in Hp]. }
  destruct Hfacts as (-> & Hid & Hown).
  destruct (appended_location st l (Claims.id user) Hok Hid Hown)
    as (Hmine & Hothers & Hget & Hhidden).
  unfold IndexJs.get_local, IndexJs.get_local_id, Part000.get_local_id. simpl.
  rewrite Hmine, (Hothers _ Hother), Hget, (Hhidden _ Hother).
  split; [|split; [|by repeat split]].
  - eexists. split; [done|]. by rewrite Permutation_app_comm.
  - by eexists.
Qed.

Lemma created_location_belongs_to_caller_witness :
  let created := IndexJs.post_local Sample.two_users (Sample.caller 2) Sample.create_park in
  let l := Sample.park 2 2 in
  created = (created.1, send 201 (Obj_location l))
  ∧ (∃ listed,
       IndexJs.get_local created.1 (Sample.caller 2) (Sample.request [] 0)
       = (created.1, send 200 (Arr_locations listed))
       ∧ listed ≡ₚ [l])
  ∧ IndexJs.get_local_id created.1 (Sample.caller 1) (Sample.request [] 2)
    = (created.1, send 404 (Obj_error "error" "Local não encontrado.")).
Proof.
  intros created l.
  assert (Hcreated : created = (created.1, send 201 (Obj_location l)))
    by (vm_compute; reflexivity).
  assert (Hok : keys_ok Sample.two_users) by (unfold keys_ok; compute_done).
  destruct (created_location_belongs_to_caller Stub.validator Sample.two_users
              created.1 (Sample.caller 2) (Sample.caller 1) Sample.create_park
              (Sample.request [] 0) l Hok)
    as (Hlist & _ & _ & _ & Hhidden & _);
    [unfold int32; simpl; lia|discriminate|left; exact Hcreated|].
  split; [exact Hcreated|]. split; [exact Hlist|exact Hhidden].
Defined.

Lemma destroyed_location_gone (st : Store) (l : Location.t) (userId : Z) :
  Location_findOne (Location_destroy st l) (Location.id l) userId = None.
Proof.
  apply head_filter_None. simpl. intros row [Hne _]%list_elem_of_filter [Hid _]. done.
Qed.

(** X9. The owner deletes a location: both files answer 200, the table
    loses the rows of that id and keeps the others, the users are as before,
    nobody finds a location under that id any more, and the same request
    sent again gets the 404. *)
Theorem deleted_location_is_gone (st : Store) (user : Claims.t) (req : Request)
    (l : Location.t) :
  Location_findOne st (params req) (Claims.id user) = Some l →
  ∃ st',
    IndexJs.delete_local_id st user req
    = (st', send 200 (Obj_message "message" "Local deletado com sucesso."))
    ∧ Part000.delete_local_id st user req
      = (st', send 200 (Obj_message "mensagem" "Local deletado com sucesso."))
    ∧ Users st' = Users st
    ∧ Locations st' = filter (λ row, Location.id row ≠ params req) (Locations st)
    ∧ (∀ anyone, Location_findOne st' (params req) anyone = None)
    ∧ IndexJs.delete_local_id st' user req
      = (st', send 404 (Obj_error "error" "Local não encontrado.")).
Proof.
  intros Hfind. destruct (Location_findOne_Some _ _ _ _ Hfind) as (_ & Hid & _).
  exists (Location_destroy st l).
  unfold IndexJs.delete_local_id, Part000.delete_local_id. rewrite Hfind.
  rewrite <-Hid, destroyed_location_gone. repeat split.
  intros anyone. apply destroyed_location_gone.
Qed.

Lemma deleted_location_is_gone_witness :
  ∃ st',
    IndexJs.delete_local_id Sample.two_users (Sample.caller 1) (Sample.request [] 1)
    = (st', send 200 (Obj_message "message" "Local deletado com sucesso."))
    ∧ Locations st' = [].
Proof.
  destruct (deleted_location_is_gone Sample.two_users (Sample.caller 1)
              (Sample.request [] 1) (Sample.park 1 1) eq_refl)
    as (st' & Hdelete & _ & _ & Hrows & _).
  exists st'. split; [exact Hdelete|]. rewrite Hrows. reflexivity.
Defined.

(** X10. A user who owns one location cannot be deleted: the route
    answers the conflict (400). Once the owner has deleted that location,
    the same request deletes the user: 200, and the user is found no
    more. *)
Theorem user_deletable_after_last_location (st : Store) (user anyone : Claims.t)
    (req req' : Request) (l : Location.t) (target : User.t) :
  User_findByPk st (Claims.id user) = Some target →
  Location_findAll st (Claims.id user) = [l] →
  params req = Location.id l →
  params req' = Claims.id user →
  let st1 := (IndexJs.delete_local_id st user req).1 in
  IndexJs.delete_usuario_id st anyone req'
  = (st, send 400 (Obj_error "error"
           "Usuário não pode ser deletado, pois possui locais associados."))
  ∧ ∃ st2,
      IndexJs.delete_usuario_id st1 anyone req'
      = (st2, send 200 (Obj_message "message" "Usuário deletado com sucesso."))
      ∧ User_findByPk st2 (Claims.id user) = None
      ∧ Locations st2 = filter (λ row, Location.id row ≠ Location.id l) (Locations st).
Proof.
  intros Htarget Hall Hreq Hreq' st1.
  assert (Hl : l ∈ Location_findAll st (Claims.id user)) by (rewrite Hall; by left).
  apply list_elem_of_filter in Hl as [Hown Hl].
  assert (Hfind : Location_findOne st (params req) (Claims.id user) = Some l).
  { destruct (head_filter_is_Some
                (λ row, Location.id row = params req
                        ∧ Location.userId row = JNum (Claims.id user))
                (Locations st) l Hl (conj (eq_sym Hreq) Hown)) as [x Hx].
    unfold Location_findOne. rewrite Hx. f_equal.
    apply head_filter_Some in Hx as [Hin [_ Hx]].
    assert (Hmine : x ∈ Location_findAll st (Claims.id user))
      by (by apply list_elem_of_filter).
    rewrite Hall in Hmine. by apply list_elem_of_singleton in Hmine. }
  split.
  - unfold IndexJs.delete_usuario_id. by rewrite Hreq', Htarget, Hall.
  - unfold st1, IndexJs.delete_local_id. rewrite Hfind. simpl.
    unfold IndexJs.delete_usuario_id. rewrite Hreq'.
    assert (Hnone : Location_findAll (Location_destroy st l) (Claims.id user) = []).
    { apply Location_findAll_nil, Forall_forall. simpl.
      intros row [Hne Hrow]%list_elem_of_filter Hrow_own.
      assert (Hmine : row ∈ Location_findAll st (Claims.id user))
        by (by apply list_elem_of_filter).
      rewrite Hall in Hmine. apply list_elem_of_singleton in Hmine. by subst. }
    change (User_findByPk (Location_destroy st l) (Claims.id user))
      with (User_findByPk st (Claims.id user)).
    rewrite Htarget, Hnone. simpl. eexists. split; [done|]. split; [|done].
    apply head_filter_Some in Htarget as [_ <-]. apply User_destroy_gone.
Qed.

Lemma user_deletable_after_last_location_witness :
  let st1 := (IndexJs.delete_local_id Sample.two_users (Sample.caller 1)
                (Sample.request [] 1)).1 in
  status (IndexJs.delete_usuario_id Sample.two_users (Sample.caller 2)
            (Sample.request [] 1)).2 = 400
  ∧ status (IndexJs.delete_usuario_id st1 (Sample.caller 2) (Sample.request [] 1)).2
    = 200.
Proof.
  intros st1.
  destruct (user_deletable_after_last_location Sample.two_users (Sample.caller 1)
              (Sample.caller 2) (Sample.request [] 1) (Sample.request [] 1)
              (Sample.park 1 1)
              (Sample.user 1 "userone@example.com" "$2b$08$password")
              eq_refl eq_refl eq_refl eq_refl) as [Hconflict (st2 & Hdeleted & _)].
  split.
  - rewrite Hconflict. reflexivity.
  - unfold st1. rewrite Hdeleted. reflexivity.
Defined.

(** ** Bodies that the routes refuse *)

(** X12. A create request whose body lacks name, description or address:
    index.js lets the model throw and answers 500; part_000 answers 400
    with a list of errors that names the missing field. Neither stores
    anything. *)
Theorem create_without_required_field (V : Validator)
    (st : Store) (user : Claims.t) (req : Request) (field : string) :
  field ∈ Location.required →
  body req !! field = None →
  IndexJs.post_local st user req
  = (st, send 500 (Obj_error "error" "Erro ao criar local."))
  ∧ ∃ errors,
      Part000.post_local st user req = (st, send 400 (Obj_errors errors))
      ∧ field ∈ path <$> errors.
Proof.
  intros Hfield Hmissing.
  assert (Hundefined : prop (body req) field = JUndefined)
    by (unfold prop; by rewrite Hmissing).
  unfold Location.required in Hfield. rewrite !elem_of_cons, elem_of_nil in Hfield.
  split.
  - unfold IndexJs.post_local, Location_create.
    destruct Hfield as [->|[->|[->|[]]]]; rewrite Hundefined; simpl;
      by rewrite ?orb_true_r.
  - exists (Part000.local_errors (body req)).
    assert (Hlisted : field ∈ path <$> Part000.local_errors (body req)).
    { unfold Part000.local_errors. rewrite !fmap_app, !elem_of_app, !elem_of_check.
      destruct Hfield as [->|[->|[->|[]]]]; rewrite Hundefined; simpl; tauto. }
    split; [|done]. unfold Part000.post_local. rewrite decide_True; [done|].
    intros Hnil. rewrite Hnil in Hlisted. by apply elem_of_nil in Hlisted.
Qed.

Lemma create_without_required_field_witness :
  let req := Sample.request [("name", JStr "Park"); ("address", JStr "a")] 0 in
  IndexJs.post_local Sample.two_users (Sample.caller 1) req
  = (Sample.two_users, send 500 (Obj_error "error" "Erro ao criar local.")).
Proof.
  intros req.
  refine (proj1 (create_without_required_field Stub.validator Sample.two_users
            (Sample.caller 1) req "description" _ _)); [compute_done|reflexivity].
Defined.

(** X13. What part_000 stores on a create request that passes its chains,
    that is, when name and description are strings of at least one
    character and address is a string (the empty one included), and whose
    three texts after [.trim().escape()] the columns keep as they are (at
    most 255 characters, no NUL): each of the three texts after
    [.trim().escape()], null coordinates, the identifier of the token as
    owner, under the next value of the serial. *)
Theorem part000_create_stores_sanitized (V : Validator)
    (st : Store) (user : Claims.t) (req : Request) (name description address : string) :
  prop (body req) "name" = JStr name →
  prop (body req) "description" = JStr description →
  prop (body req) "address" = JStr address →
  (1 ≤ characters name)%nat →
  (1 ≤ characters description)%nat →
  storable (escape (trim name)) = true →
  storable (escape (trim description)) = true →
  storable (escape (trim address)) = true →
  let l := {| Location.id := Locations_id_seq st;
              Location.name := JStr (escape (trim name));
              Location.description := JStr (escape (trim description));
              Location.address := JStr (escape (trim address));
              Location.coordinates := JNull;
              Location.userId := JNum (Claims.id user) |} in
  Part000.local_errors (body req) = []
  ∧ Part000.post_local st user req
    = (with_Locations st (Locations st ++ [l]) (Locations_id_seq st + 1),
       send 201 (Obj_location l)).
Proof.
  intros Hname Hdescription Haddress Hn Hd Sn Sd Sa l.
  assert (Hnone : Part000.local_errors (body req) = []).
  { unfold Part000.local_errors. rewrite Hname, Hdescription, Haddress.
    cbn [isString toString]. unfold isLength. by rewrite !bool_decide_true. }
  split; [done|]. unfold Part000.post_local. rewrite Hnone.
  rewrite decide_False by (by intros []).
  unfold Location_create. rewrite !prop_local_sanitized by compute_done.
  rewrite Hname, Hdescription, Haddress. cbn [toString nullish orb STRING].
  by rewrite !VARCHAR255_storable.
Qed.

Lemma part000_create_stores_sanitized_witness :
  let req := Sample.request [("name", JStr "Park"); ("description", JStr "desc");
                             ("address", JStr EmptyString);
                             ("coordinates", JStr "1,2")] 0 in
  (@Part000.post_local Stub.validator Sample.registered (Sample.caller 1) req).2
  = send 201 (Obj_location
      {| Location.id := 1; Location.name := JStr "Park";
         Location.description := JStr "desc"; Location.address := JStr EmptyString;
         Location.coordinates := JNull; Location.userId := JNum 1 |}).
Proof.
  intros req.
  destruct (@part000_create_stores_sanitized Stub.validator Sample.registered
              (Sample.caller 1) req "Park" "desc" EmptyString
              eq_refl eq_refl eq_refl) as [_ Hpost];
    [vm_compute; lia|vm_compute; lia|reflexivity|reflexivity|reflexivity|].
  rewrite Hpost. reflexivity.
Defined.

(** X14. The two chains of the part_000 login, for a body that is a JSON
    object (its numbers safe integers): the errors name the email exactly
    when the validator refuses it and the password exactly when it has
    fewer than eight characters (a missing field counts as the empty
    string); when either happens the route answers 400 with that list,
    whatever the store holds, and returns the store as it is. *)
Theorem part000_login_validation (V : Validator) (B : Bcrypt) (J : Jsonwebtoken)
    (st : Store) (now : Z) (req : Request) :
  json (body req) →
  let errors := Part000.login_errors (body req) in
  let bad_email := isEmail (toString (prop (body req) "email")) = false in
  let short_password :=
    (characters (toString (prop (body req) "password")) < 8)%nat in
  (∀ field, field ∈ path <$> errors
            ↔ (field = "email" ∧ bad_email) ∨ (field = "password" ∧ short_password))
  ∧ (bad_email ∨ short_password →
     Part000.post_login st now req = (st, send 400 (Obj_errors errors))).
Proof.
  intros _ errors bad_email short_password.
  assert (Hlisted : ∀ field, field ∈ path <$> errors
            ↔ (field = "email" ∧ bad_email) ∨ (field = "password" ∧ short_password)).
  { intros field. unfold errors, Part000.login_errors.
    by rewrite fmap_app, elem_of_app, !elem_of_check, isLength_min_false. }
  split; [done|]. intros Hbad.
  assert (Hsome : errors ≠ []).
  { intros Hnil.
    assert (Hin : ∃ field, field ∈ path <$> errors).
    { destruct Hbad; [exists "email"|exists "password"]; apply Hlisted; tauto. }
    destruct Hin as [field Hin]. rewrite Hnil in Hin. by apply elem_of_nil in Hin. }
  unfold Part000.post_login. fold errors. by rewrite decide_True.
Qed.

(** A password of seven characters, one of them encoded on two bytes. *)
Lemma part000_login_validation_witness :
  let req := Sample.login_as "userone@example.com" "señha12" in
  String.length "señha12" = 8%nat
  ∧ @Part000.post_login Stub.validator Stub.bcrypt Stub.jsonwebtoken
      Sample.two_users 0 req
    = (Sample.two_users,
       send 400 (Obj_errors [{| path := "password"; msg := "Invalid value" |}])).
Proof.
  intros req. split; [reflexivity|].
  refine (proj2 (part000_login_validation Stub.validator Stub.bcrypt
            Stub.jsonwebtoken Sample.two_users 0 req _) _).
  - unfold json. compute_done.
  - right. vm_compute. lia.
Defined.

(** X15. The index.js login when it does not fail on the credentials. With
    no email in the body the query throws and the answer is 500. When a user
    has the email: a password that is not a string makes bcrypt throw, 500;
    a password that bcrypt accepts against the stored hash answers 200 with
    that user and a token signed for the user's id without expiry. The
    store is returned as it is. *)
Theorem index_js_login_cases (B : Bcrypt) (J : Jsonwebtoken)
    (st : Store) (now : Z) (req : Request) :
  let failed := (st, send 500 (Obj_error "error" "Erro ao realizar login.")) in
  (body req !! "email" = None → IndexJs.post_login st now req = failed)
  ∧ ∀ u,
      User_findOne_email st (prop (body req) "email") = Some (Some u) →
      (isString (prop (body req) "password") = false →
       IndexJs.post_login st now req = failed)
      ∧ ∀ password,
          prop (body req) "password" = JStr password →
          bcrypt_compare password (User.password u) = true →
          IndexJs.post_login st now req
          = (st, send 200 (Obj_user_token u (jwt_sign (User.id u) None now))).
Proof.
  intros failed. unfold IndexJs.post_login. split.
  - intros Hmissing.
    assert (Hundefined : prop (body req) "email" = JUndefined)
      by (unfold prop; by rewrite Hmissing).
    cbv zeta. by rewrite Hundefined.
  - intros u Hfound. cbv zeta. rewrite Hfound. simpl. split.
    + by destruct (prop (body req) "password").
    + intros password -> Hmatch. simpl. by rewrite Hmatch.
Qed.

Lemma index_js_login_cases_witness :
  @IndexJs.post_login Stub.bcrypt Stub.jsonwebtoken Sample.two_users 7
    (Sample.login_as "usertwo@example.com" "password")
  = (Sample.two_users,
     send 200 (Obj_user_token (Sample.user 2 "usertwo@example.com" "$2b$08$password")
                 "+11.+1111111.")).
Proof.
  refine (proj2 (proj2 (index_js_login_cases Stub.bcrypt Stub.jsonwebtoken
            Sample.two_users 7 (Sample.login_as "usertwo@example.com" "password"))
            (Sample.user 2 "usertwo@example.com" "$2b$08$password") _)
            "password" _ _); reflexivity.
Defined.

(** ** Registration *)

Lemma prop_usuario_sanitized (V : Validator) (b : object) (k : string) :
  k ≠ "birthdate" → prop (Part000.usuario_sanitized b) k = prop b k.
Proof. intros Hne. unfold Part000.usuario_sanitized. by rewrite prop_insert_ne. Qed.

Lemma index_js_usuario_created (B : Bcrypt) (J : Jsonwebtoken)
    (st st1 : Store) (now : Z) (req : Request) (u : User.t) (token : string) :
  IndexJs.post_usuario st now req = (st1, send 201 (Obj_user_token u token)) →
  u ∈ Users st1
  ∧ User.cpf u = prop (body req) "cpf"
  ∧ User.email u = prop (body req) "email".
Proof.
  unfold IndexJs.post_usuario.
  destruct (User_findOne_cpf_or_email _ _ _) as [[existing|]|]; simpl; try done.
  destruct (hash _ _) as [hashed|]; simpl; try done. intros [= <- <- _]. simpl.
  split; [|done]. apply elem_of_app. right. by left.
Qed.

Lemma part000_usuario_created (V : Validator) (B : Bcrypt) (J : Jsonwebtoken)
    (st st1 : Store) (now : Z) (req : Request) (u : User.t) (token : string) :
  Part000.post_usuario st now req = (st1, send 201 (Obj_user_token u token)) →
  u ∈ Users st1
  ∧ User.cpf u = prop (body req) "cpf"
  ∧ User.email u = prop (body req) "email".
Proof.
  unfold Part000.post_usuario. case_decide; [done|].
  rewrite (prop_usuario_sanitized V _ "cpf"), (prop_usuario_sanitized V _ "email")
    by done.
  destruct (User_findOne_cpf_or_email _ _ _) as [[existing|]|]; simpl; try done.
  destruct (hash _ _) as [hashed|]; simpl; try done. intros [= <- <- _]. simpl.
  split; [|done]. apply elem_of_app. right. by left.
Qed.

Lemma conflict_found (st : Store) (cpf email : string) (u : User.t) :
  u ∈ Users st →
  User.cpf u = JStr cpf ∨ User.email u = JStr email →
  ∃ existing,
    User_findOne_cpf_or_email st (JStr cpf) (JStr email) = Some (Some existing).
Proof.
  intros Hu Hshared. unfold User_findOne_cpf_or_email. simpl.
  destruct (head_filter_is_Some
              (λ x, User.cpf x = JStr cpf ∨ User.email x = JStr email)
              (Users st) u Hu Hshared)
    as [existing ->].
  by exists existing.
Qed.

(** X16. After a successful registration, a second registration whose cpf
    and email are strings, one of them the cpf or the email of the first,
    is answered 400 with the conflict message and stores nothing; in
    part_000 this is what happens once the body passes the chains. *)
Theorem second_registration_conflicts (V : Validator) (B : Bcrypt) (J : Jsonwebtoken)
    (st st1 : Store) (now now' : Z) (req req' : Request) (u : User.t) (token : string)
    (cpf email : string) :
  prop (body req') "cpf" = JStr cpf →
  prop (body req') "email" = JStr email →
  prop (body req) "cpf" = JStr cpf ∨ prop (body req) "email" = JStr email →
  (IndexJs.post_usuario st now req = (st1, send 201 (Obj_user_token u token)) →
   IndexJs.post_usuario st1 now' req'
   = (st1, send 400 (Obj_error "error"
              "Usuário com o mesmo CPF ou email já cadastrado.")))
  ∧ (Part000.post_usuario st now req = (st1, send 201 (Obj_user_token u token)) →
     Part000.usuario_errors (body req') = [] →
     Part000.post_usuario st1 now' req'
     = (st1, send 400 (Obj_error "erro"
                "Usuário com o mesmo CPF ou email já cadastrado."))).
Proof.
  intros Hcpf Hemail Hshared. split.
  - intros (Hu & Hucpf & Huemail)%index_js_usuario_created.
    assert (Hsame : User.cpf u = JStr cpf ∨ User.email u = JStr email)
      by (rewrite Hucpf, Huemail; destruct Hshared; auto).
    destruct (conflict_found st1 _ _ u Hu Hsame) as [existing Hfound].
    unfold IndexJs.post_usuario. by rewrite Hcpf, Hemail, Hfound.
  - intros (Hu & Hucpf & Huemail)%part000_usuario_created Hvalid.
    assert (Hsame : User.cpf u = JStr cpf ∨ User.email u = JStr email)
      by (rewrite Hucpf, Huemail; destruct Hshared; auto).
    destruct (conflict_found st1 _ _ u Hu Hsame) as [existing Hfound].
    unfold Part000.post_usuario. rewrite Hvalid.
    rewrite decide_False by (by intros []).
    rewrite (prop_usuario_sanitized V _ "cpf"), (prop_usuario_sanitized V _ "email")
      by done.
    by rewrite Hcpf, Hemail, Hfound.
Qed.

(** Maria registers, then somebody else registers with her email. *)
Lemma second_registration_conflicts_witness :
  let first := @IndexJs.post_usuario Stub.bcrypt Stub.jsonwebtoken
                 Sample.empty_store 0 (Sample.register_maria "senha123") in
  let again := Sample.request [("cpf", JStr "00000000000");
                               ("email", JStr "maria@example.com");
                               ("password", JStr "other")] 0 in
  status first.2 = 201
  ∧ @IndexJs.post_usuario Stub.bcrypt Stub.jsonwebtoken first.1 9 again
    = (first.1, send 400 (Obj_error "error"
                  "Usuário com o mesmo CPF ou email já cadastrado.")).
Proof.
  intros first again. split; [reflexivity|].
  refine (proj1 (second_registration_conflicts Stub.validator Stub.bcrypt
            Stub.jsonwebtoken Sample.empty_store first.1 0 9
            (Sample.register_maria "senha123") again _ _
            "00000000000" "maria@example.com" _ _ _) _).
  - reflexivity.
  - reflexivity.
  - right. reflexivity.
  - vm_compute. reflexivity.
Defined.

(** X17. A password that is not a JSON string never registers: bcrypt
    throws on it, so both files return the store as it is and answer
    something other than 201, even when, in part_000, its digits pass the
    length chain. *)
Theorem password_must_be_string (V : Validator) (B : Bcrypt) (J : Jsonwebtoken)
    (st : Store) (now : Z) (req : Request) :
  isString (prop (body req) "password") = false →
  (IndexJs.post_usuario st now req).1 = st
  ∧ status (IndexJs.post_usuario st now req).2 ≠ 201
  ∧ (Part000.post_usuario st now req).1 = st
  ∧ status (Part000.post_usuario st now req).2 ≠ 201.
Proof.
  intros Hpassword.
  assert (Hthrows : hash (prop (body req) "password") 8 = None)
    by (by destruct (prop (body req) "password")).
  unfold IndexJs.post_usuario, Part000.post_usuario.
  rewrite (prop_usuario_sanitized V _ "password"), (prop_usuario_sanitized V _ "cpf"),
    (prop_usuario_sanitized V _ "email") by done.
  rewrite Hthrows.
  destruct (User_findOne_cpf_or_email st _ _) as [[existing|]|];
    case_decide; by simpl.
Qed.

Lemma password_must_be_string_witness :
  let req := Sample.request
               [("name", JStr "Maria Oliveira"); ("gender", JStr "F");
                ("cpf", JStr "98765432150"); ("address", JStr "Avenida Brasil, 500");
                ("email", JStr "maria@example.com"); ("password", JNum 12345678);
                ("birthdate", JStr "1985-07-15")] 0 in
  @Part000.usuario_errors Stub.validator (body req) = []
  ∧ status (@Part000.post_usuario Stub.validator Stub.bcrypt Stub.jsonwebtoken
              Sample.empty_store 0 req).2 ≠ 201.
Proof.
  intros req. split; [reflexivity|].
  refine (proj2 (proj2 (proj2 (password_must_be_string Stub.validator Stub.bcrypt
            Stub.jsonwebtoken Sample.empty_store 0 req _)))). reflexivity.
Defined.

(** ** Updates with any body *)









Lemma update_sanitized_lookup_defined (V : Validator) (b : object) (k : string) :
  (∀ f, b !! f ≠ Some JUndefined) →
  Part000.update_sanitized b !! k = sanitized k <$> b !! k.
Proof.
  intros Hdefined.
  pose proof (optional_trim_escape_defined V "name" b Hdefined) as Hname.
  pose proof (optional_trim_escape_defined V "description" _ Hname) as Hdescription.
  unfold Part000.update_sanitized.
  rewrite optional_trim_escape_lookup by done.
  rewrite optional_trim_escape_lookup by done.
  rewrite optional_trim_escape_lookup by done.
  unfold sanitized.
  destruct (decide (k ∈ ["name"; "description"; "address"])) as [Hin|Hout].
  - revert Hin. rewrite !elem_of_cons, elem_of_nil.
    by intros [->|[->|[->|[]]]].
  - revert Hout. rewrite !not_elem_of_cons. intros (?&?&?&_).
    rewrite !decide_False by done. by destruct (b !! k).
Qed.

(** X21. In part_000 the update of an owned location takes a value of any
    JSON type for name, description and address. For a body whose keys are
    among these three and whose values, once through [.trim().escape()],
    are texts that the columns keep as they are (at most 255 characters, no
    NUL): the answer is 200; each of the three that the body gives, null
    included, has in the answer the text that [.trim().escape()] returns
    for it (for null, for the empty string); each one the body does not
    give keeps its value, and so do the coordinates; the row of the answer
    is what the table then holds under that identifier. *)
Theorem part000_update_sanitizes_texts (V : Validator)
    (st : Store) (user : Claims.t) (req : Request) (l : Location.t) :
  Location_findOne st (params req) (Claims.id user) = Some l →
  json (body req) →
  (∀ k v, body req !! k = Some v →
          k ∈ Location.required ∧ storable (escape (trim (toString v))) = true) →
  ∃ st' l',
    Part000.put_local_id st user req = (st', send 200 (Obj_location l'))
    ∧ (∀ k, k ∈ Location.required →
            Location.get k l'
            = match body req !! k with
              | Some v => JStr (escape (trim (toString v)))
              | None => Location.get k l
              end)
    ∧ Location.coordinates l' = Location.coordinates l
    ∧ Location_findOne st' (params req) (Claims.id user) = Some l'.
Proof.
  intros Hfind Hjson Hbody.
  assert (Hdefined : ∀ k, body req !! k ≠ Some JUndefined).
  { intros k Hk. by specialize (Hjson _ _ Hk). }
  assert (Hlookup : ∀ k, Part000.update_sanitized (body req) !! k
                         = (λ v, JStr (escape (trim (toString v)))) <$> body req !! k).
  { intros k. rewrite update_sanitized_lookup_defined by done.
    destruct (body req !! k) as [v|] eqn:Hk; [|done]. simpl.
    destruct (Hbody _ _ Hk) as [Hin _]. unfold sanitized. by rewrite decide_True. }
  assert (Hpartial : partial_update (Part000.update_sanitized (body req))).
  { intros k w. rewrite Hlookup.
    destruct (body req !! k) as [v|] eqn:Hk; [|done]. simpl. intros [= <-].
    destruct (Hbody _ _ Hk) as [Hin _]. split; [|done].
    revert Hin. unfold Location.required, fields. rewrite !elem_of_cons. tauto. }
  assert (Hfits : fits (Part000.update_sanitized (body req))).
  { intros k w. rewrite Hlookup.
    destruct (body req !! k) as [v|] eqn:Hk; [|done]. simpl. intros [= <-].
    by destruct (Hbody _ _ Hk) as [_ Hstorable]. }
  destruct (save_partial_update _ _ _ _ _ Hfind Hpartial Hfits)
    as (Hget & st' & Hsave & Hafter & _).
  exists st', (map_fold Location.set l (Part000.update_sanitized (body req))).
  unfold Part000.put_local_id. rewrite Hfind. simpl. rewrite Hsave. simpl.
  split; [done|]. split; [|split; [|done]].
  - intros k _. rewrite Hget, Hlookup. by destruct (body req !! k).
  - pose proof (Hget "coordinates") as Hc. rewrite Hlookup in Hc.
    destruct (body req !! "coordinates") as [v|] eqn:Hk; [|exact Hc].
    destruct (Hbody _ _ Hk) as [Hin _]. exfalso. revert Hin.
    unfold Location.required. rewrite !elem_of_cons, elem_of_nil.
    by intros [?|[?|[?|[]]]].
Qed.

Lemma part000_update_sanitizes_texts_witness :
  ∃ st' l',
    @Part000.put_local_id Stub.validator Sample.two_users (Sample.caller 1)
      (Sample.request [("name", JNull); ("address", JNum 12)] 1)
    = (st', send 200 (Obj_location l'))
    ∧ Location.name l' = JStr EmptyString
    ∧ Location.address l' = JStr "12"
    ∧ Location_findOne st' 1 1 = Some l'.
Proof.
  destruct (part000_update_sanitizes_texts Stub.validator Sample.two_users
              (Sample.caller 1)
              (Sample.request [("name", JNull); ("address", JNum 12)] 1)
              (Sample.park 1 1) eq_refl) as (st' & l' & Hput & Hget & _ & Hafter).
  - unfold json. compute_done.
  - assert (Hbody : map_Forall
              (λ k v, k ∈ Location.required
                      ∧ storable (@escape Stub.validator
                                    (@trim Stub.validator (toString v))) = true)
              (body (Sample.request [("name", JNull); ("address", JNum 12)] 1)))
      by compute_done.
    exact Hbody.
  - exists st', l'. split; [exact Hput|].
    split; [exact (Hget "name" ltac:(compute_done))|].
    split; [exact (Hget "address" ltac:(compute_done))|exact Hafter].
Defined.

(** ** The seeders *)

(** X22. The locations seeder, on a store with primary keys in order:
    the keys stay in order; the list of user 1 holds the locations of
    before and Central Park, the list of user 2 the locations of before and
    Golden Gate Park, the list of anybody else (of an identifier within the
    range of the keys) the locations of before, the lists being compared as
    bags; and user 1 gets Central Park, coordinates included, under the id
    that the serial had. *)
Theorem seeded_locations_are_listed (st : Store) (other : Claims.t) (req : Request) :
  keys_ok st →
  int32 (Claims.id other) →
  Claims.id other ≠ 1 →
  Claims.id other ≠ 2 →
  let st' := Seeders.demo_locations_up st in
  let central :=
    {| Location.id := Locations_id_seq st; Location.name := JStr "Central Park";
       Location.description := JStr "A large public park in New York City.";
       Location.address := JStr "New York, NY 10024";
       Location.coordinates := JStr "40.785091,-73.968285";
       Location.userId := JNum 1 |} in
  keys_ok st'
  ∧ (∃ listed,
       IndexJs.get_local st' (Sample.caller 1) req
       = (st', send 200 (Arr_locations listed))
       ∧ listed ≡ₚ central :: Location_findAll st 1)
  ∧ (∃ golden listed,
       Location.name golden = JStr "Golden Gate Park"
       ∧ IndexJs.get_local st' (Sample.caller 2) req
         = (st', send 200 (Arr_locations listed))
       ∧ listed ≡ₚ golden :: Location_findAll st 2)
  ∧ (∃ listed,
       IndexJs.get_local st' other req = (st', send 200 (Arr_locations listed))
       ∧ listed ≡ₚ Location_findAll st (Claims.id other))
  ∧ IndexJs.get_local_id st' (Sample.caller 1)
      {| Authorization := Authorization req; params := Locations_id_seq st;
         body := body req |}
    = (st', send 200 (Obj_location central)).
Proof.
  intros (Hl & Hseq & Hu & Huseq) _ Hne1 Hne2 st' central.
  assert (Hbelow : ∀ row, row ∈ Locations st → Location.id row < Locations_id_seq st)
    by (by apply Forall_forall).
  split; [|split; [|split; [|split]]].
  - unfold keys_ok, st'. simpl. repeat split; try done.
    + rewrite fmap_app, NoDup_app. split; [done|]. split.
      * intros i (row & -> & Hrow%Hbelow)%list_elem_of_fmap. simpl.
        rewrite !elem_of_cons, elem_of_nil. lia.
      * simpl. apply NoDup_cons. split; [|apply NoDup_singleton].
        rewrite list_elem_of_singleton. lia.
    + apply Forall_app. split.
      * eapply Forall_impl; [exact Hseq|]. simpl. lia.
      * repeat constructor; simpl; lia.
  - eexists. split; [reflexivity|].
    unfold Location_findAll, st'. simpl. rewrite filter_app.
    by rewrite Permutation_app_comm.
  - exists {| Location.id := Locations_id_seq st + 1;
              Location.name := JStr "Golden Gate Park";
              Location.description := JStr "A large urban park in San Francisco.";
              Location.address := JStr "San Francisco, CA 94122";
              Location.coordinates := JStr "37.769421,-122.486214";
              Location.userId := JNum 2 |}.
    eexists. split; [done|]. split; [reflexivity|].
    unfold Location_findAll, st'. simpl. rewrite filter_app.
    by rewrite Permutation_app_comm.
  - eexists. split; [reflexivity|].
    unfold Location_findAll, st', Seeders.demo_locations_up.
    cbn [Locations with_Locations].
    rewrite filter_app, !filter_cons, filter_nil. simpl.
    destruct (decide (JNum 1 = JNum (Claims.id other))) as [[=]|_]; [lia|].
    destruct (decide (JNum 2 = JNum (Claims.id other))) as [[=]|_]; [lia|].
    by rewrite app_nil_r.
  - unfold IndexJs.get_local_id, Location_findOne, st'. simpl.
    rewrite filter_app.
    assert (Hold : filter (λ row, Location.id row = Locations_id_seq st
                                  ∧ Location.userId row = JNum 1) (Locations st) = []).
    { apply head_None, head_filter_None. intros row Hrow%Hbelow [Hsame _]. lia. }
    rewrite Hold. simpl. by rewrite filter_cons, decide_True.
Qed.

Lemma seeded_locations_are_listed_witness :
  ∃ listed,
    (IndexJs.get_local (Seeders.demo_locations_up Sample.two_users) (Sample.caller 1)
       (Sample.request [] 0)).2
    = send 200 (Arr_locations listed)
    ∧ listed
      ≡ₚ [{| Location.id := 2; Location.name := JStr "Central Park";
             Location.description := JStr "A large public park in New York City.";
             Location.address := JStr "New York, NY 10024";
             Location.coordinates := JStr "40.785091,-73.968285";
             Location.userId := JNum 1 |};
          Sample.park 1 1].
Proof.
  assert (Hok : keys_ok Sample.two_users) by (unfold keys_ok; compute_done).
  destruct (seeded_locations_are_listed Sample.two_users (Sample.caller 3)
              (Sample.request [] 0) Hok) as (_ & (listed & Hlist & Hperm) & _);
    [unfold int32; simpl; lia|discriminate|discriminate|].
  exists listed. split; [by rewrite Hlist|exact Hperm].
Defined.

(** X23. Undoing the locations seeder removes every location, the seeded
    ones and all the others, and leaves the users; after it the delete
    route of a user answers 200 for every user that exists, whoever
    asks. *)
Theorem seeder_down_frees_every_user (st : Store) (anyone : Claims.t) (req : Request) :
  let st' := Seeders.demo_locations_down st in
  Locations st' = []
  ∧ Users st' = Users st
  ∧ (Exists (λ u, User.id u = params req) (Users st) →
     ∃ st'',
       IndexJs.delete_usuario_id st' anyone req
       = (st'', send 200 (Obj_message "message" "Usuário deletado com sucesso."))
       ∧ User_findByPk st'' (params req) = None).
Proof.
  intros st'. split; [done|]. split; [done|].
  intros (target & Htarget & Hid)%User_findByPk_Some.
  unfold IndexJs.delete_usuario_id.
  change (User_findByPk st' (params req)) with (User_findByPk st (params req)).
  rewrite Htarget. simpl. eexists. split; [done|].
  rewrite <-Hid. apply User_destroy_gone.
Qed.

Lemma seeder_down_frees_every_user_witness :
  status (IndexJs.delete_usuario_id (Seeders.demo_locations_down Sample.two_users)
            (Sample.caller 2) (Sample.request [] 1)).2 = 200.
Proof.
  destruct (seeder_down_frees_every_user Sample.two_users (Sample.caller 2)
              (Sample.request [] 1)) as (_ & _ & Hdelete).
  destruct Hdelete as (st'' & Hdelete & _); [compute_done|].
  rewrite Hdelete. reflexivity.
Defined.

(** X24. The users seeder and the index.js login, for a bcrypt whose
    [compare] accepts what [hash] produced: on a store where nobody has the
    email, the first seeded user logs in with the password of the seeder
    and gets a token for the id that the serial had. *)
Theorem seeded_user_logs_in (B : Bcrypt) (J : Jsonwebtoken)
    (st : Store) (now : Z) (req : Request) :
  (∀ data rounds, bcrypt_compare data (bcrypt_hash data rounds) = true) →
  Forall (λ u, User.email u ≠ JStr "userone@example.com") (Users st) →
  prop (body req) "email" = JStr "userone@example.com" →
  prop (body req) "password" = JStr "password" →
  let st' := Seeders.demo_users_up st in
  ∃ u,
    IndexJs.post_login st' now req
    = (st', send 200 (Obj_user_token u (jwt_sign (Users_id_seq st) None now)))
    ∧ User.id u = Users_id_seq st
    ∧ User.name u = JStr "User One"
    ∧ User.gender u = JStr "Male".
Proof.
  intros Hbcrypt Hfresh Hemail Hpassword st'.
  unfold IndexJs.post_login, User_findOne_email. rewrite Hemail, Hpassword.
  cbn [where_text mbind option_bind].
  assert (Hold : filter (λ u, User.email u = JStr "userone@example.com") (Users st) = []).
  { apply head_None, head_filter_None. by apply Forall_forall. }
  unfold st', Seeders.demo_users_up. cbn [Users with_Users].
  rewrite filter_app, Hold, app_nil_l, filter_cons, decide_True by done. simpl.
  rewrite Hbcrypt. eexists. by repeat split.
Qed.

Lemma seeded_user_logs_in_witness :
  status (@IndexJs.post_login Stub.bcrypt Stub.jsonwebtoken
            (@Seeders.demo_users_up Stub.bcrypt Sample.empty_store) 3
            (Sample.login_as "userone@example.com" "password")).2 = 200.
Proof.
  destruct (seeded_user_logs_in Stub.bcrypt Stub.jsonwebtoken Sample.empty_store 3
              (Sample.login_as "userone@example.com" "password"))
    as (u & Hlogin & _); [intros data rounds; apply bool_decide_eq_true_2; reflexivity
                         |constructor|reflexivity|reflexivity|].
  rewrite Hlogin. reflexivity.
Defined.
